(** * Exporting cloudlets policies: a shallow embedding of [create_policy.go]

    The Go package [cloudlets] of cli-terraform finds a policy by name among
    paginated API results, resolves its latest version, folds the activation
    history per network and hands one [TFPolicyData] to the template
    processor.  This file embeds those functions and the [checkForResource]
    and [useTemplate] helpers of the [dns] package, and states their
    properties.

    Conventions of the embedding:
    - Go [int] and [int64] are [Z]; the one addition the code performs on
      them ([offset += pageSize]) is wrapped to 64 bits.
    - The API client is the interface [cloudlets.Cloudlets]; it is a record of
      response functions, and every call made through it is logged, the way
      the tests' mock records calls.
    - A Go [for { ... }] loop takes fuel; running out of fuel is the outcome
      [OutOfFuel], distinct from every value and every error.
    - [sort.Slice] is the pattern-defeating quicksort of the Go library
      (Go 1.19 and later), embedded routine by routine; it is the insertion
      sort up to 12 elements.
    - A call that dereferences a nil pointer is the outcome [Panicked].
    - The terminal spinner and [fmt.Println] calls print progress only and
      are left out. *)

From Stdlib Require Import ZArith Ascii String List Lia.
From stdpp Require Import base gmap strings list.

Local Open Scope string_scope.
Local Open Scope list_scope.
Local Open Scope Z_scope.

(** ** Go values *)

(** Two's complement wrap-around of a 64-bit signed integer. *)
Definition wrap_int64 (z : Z) : Z := (z + 2 ^ 63) `mod` 2 ^ 64 - 2 ^ 63.

Definition max_int64 : Z := 2 ^ 63 - 1.

(** [len(s)] of a slice, as a Go [int]. *)
Definition len {A : Type} (l : list A) : Z := Z.of_nat (length l).

(** Go's [>] on strings: lexicographic order on bytes. *)
Definition string_gt (a b : string) : bool :=
  match String.compare a b with
  | Gt => true
  | _ => false
  end.

(** ** Errors *)

(** The three package-level error values of [create_policy.go]. *)
Inductive sentinel : Type :=
| ErrFetchingPolicy
| ErrFetchingVersion
| ErrCloudletTypeNotSupported.

(** A Go [error]: one of the package's named values, an error made by
    [fmt.Errorf] without [%w] (or coming from the API client), or
    [fmt.Errorf("%w: %s", e, detail)]. *)
Inductive error : Type :=
| Named (s : sentinel)
| Errorf (msg : string)
| Wrapf (e : error) (detail : string).

#[global] Instance sentinel_eq_dec : EqDecision sentinel.
Proof. solve_decision. Defined.

#[global] Instance error_eq_dec : EqDecision error.
Proof. solve_decision. Defined.

Definition sentinel_text (s : sentinel) : string :=
  match s with
  | ErrFetchingPolicy => "unable to fetch policy with given name"
  | ErrFetchingVersion => "unable to fetch latest policy version"
  | ErrCloudletTypeNotSupported => "cloudlet type not supported"
  end.

(** The [Error()] method: the message text. *)
Fixpoint Error (e : error) : string :=
  match e with
  | Named s => sentinel_text s
  | Errorf msg => msg
  | Wrapf e' detail => Error e' +:+ ": " +:+ detail
  end.

(** [errors.Is]: follows the [%w] chain. *)
Fixpoint errors_Is (e target : error) : bool :=
  bool_decide (e = target) ||
  match e with
  | Wrapf e' _ => errors_Is e' target
  | _ => false
  end.

(** ** The data of the cloudlets API (the fields the exporter reads) *)

Record PolicyInfo := { PolicyInfo_Version : Z }.
Record PropertyInfo := { PropertyInfo_Name : string }.

Record PolicyActivation := {
  Activation_Network : string;
  Activation_PolicyInfo : PolicyInfo;
  Activation_PropertyInfo : PropertyInfo
}.

Record Policy := {
  PolicyID : Z;
  GroupID : Z;
  Name : string;
  Policy_Description : string;
  CloudletID : Z;
  CloudletCode : string;
  Activations : list PolicyActivation
}.

Record ForwardSettingsALB := { OriginID : string }.

Record MatchRuleALB := {
  ALB_Name : string;
  ALB_ID : Z;
  ForwardSettings : ForwardSettingsALB
}.

(** [cloudlets.MatchRules] is a slice of an interface type.  The exporter only
    distinguishes a [*MatchRuleALB] from every other dynamic type, of which
    it prints the type name. *)
Inductive MatchRule : Type :=
| RuleALB (r : MatchRuleALB)
| RuleOther (typeName : string).

Record PolicyVersion := {
  PV_PolicyID : Z;
  PV_Version : Z;
  PV_Description : string;
  PV_MatchRuleFormat : string;
  PV_MatchRules : list MatchRule
}.

Record LoadBalancerVersion := {
  LBV_OriginID : string;
  LBV_Version : Z;
  LBV_Description : string
}.

Record LoadBalancerActivation := {
  ActivatedDate : string;
  LBA_Network : string;
  LBA_OriginID : string;
  LBA_Status : string;
  LBA_Version : Z
}.

(** The network names of the client library. *)
Definition PolicyActivationNetworkStaging : string := "staging".
Definition PolicyActivationNetworkProduction : string := "prod".
Definition LoadBalancerActivationNetworkStaging : string := "STAGING".
Definition LoadBalancerActivationNetworkProduction : string := "PRODUCTION".

(** ** Requests and the client interface *)

Record ListPoliciesRequest := {
  LP_Offset : Z;
  LP_PageSize : option Z
}.

Record ListPolicyVersionsRequest := {
  LPV_PolicyID : Z;
  LPV_IncludeRules : bool;
  LPV_PageSize : option Z;
  LPV_Offset : Z
}.

Record GetPolicyVersionRequest := {
  GPV_PolicyID : Z;
  GPV_Version : Z
}.

Record Cloudlets := {
  ListPolicies : ListPoliciesRequest → error + list Policy;
  ListPolicyVersions : ListPolicyVersionsRequest → error + list PolicyVersion;
  GetPolicyVersion : GetPolicyVersionRequest → error + PolicyVersion;
  ListLoadBalancerVersions : string → error + list LoadBalancerVersion;
  ListLoadBalancerActivations : string → error + list LoadBalancerActivation
}.

(** ** The data handed to the templates *)

Record TFPolicyActivationData := {
  TFA_PolicyID : Z;
  TFA_Version : Z;
  TFA_Properties : list string
}.

Record TFPolicyData := {
  TF_Name : string;
  TF_CloudletCode : string;
  TF_Description : string;
  TF_GroupID : Z;
  TF_MatchRuleFormat : string;
  TF_MatchRules : list MatchRule;
  TF_PolicyActivations : gmap string TFPolicyActivationData;
  TF_LoadBalancers : list LoadBalancerVersion;
  TF_LoadBalancerActivations : list LoadBalancerActivation;
  TF_Section : string
}.

(** ** Calls and the monad of the exporter *)

Inductive Call : Type :=
| CallListPolicies (req : ListPoliciesRequest)
| CallListPolicyVersions (req : ListPolicyVersionsRequest)
| CallGetPolicyVersion (req : GetPolicyVersionRequest)
| CallListLoadBalancerVersions (originID : string)
| CallListLoadBalancerActivations (originID : string)
| CallProcessTemplates (data : TFPolicyData).

Inductive outcome (A : Type) : Type :=
| Ret (a : A)
| Fail (e : error)
| OutOfFuel.
Arguments Ret {A} a.
Arguments Fail {A} e.
Arguments OutOfFuel {A}.

(** A computation: the calls it made, in order, and how it ended. *)
Definition M (A : Type) : Type := list Call * outcome A.

#[global] Instance M_ret : MRet M := λ A a, ([], Ret a).

#[global] Instance M_bind : MBind M := λ A B f m,
  match m.2 with
  | Ret a => (m.1 ++ (f a).1, (f a).2)
  | Fail e => (m.1, Fail e)
  | OutOfFuel => (m.1, OutOfFuel)
  end.

Definition fail {A : Type} (e : error) : M A := ([], Fail e).
Definition out_of_fuel {A : Type} : M A := ([], OutOfFuel).

(** One call through the client: logged, then answered. *)
Definition invoke {A : Type} (c : Call) (r : error + A) : M A :=
  ([c], match r with inl e => Fail e | inr a => Ret a end).

(** ** [findPolicyByName] *)

Definition name_is (name : string) (p : Policy) : bool :=
  bool_decide (Name p = name).

Definition listPoliciesRequest (pageSize offset : Z) : ListPoliciesRequest :=
  {| LP_Offset := offset; LP_PageSize := Some pageSize |}.

Definition not_exist (name : string) : error :=
  Errorf ("policy '" +:+ name +:+ "' does not exist").

(** The [for { ... }] loop of [findPolicyByName], from the state
    [(pageSize, offset)]. *)
Fixpoint findPolicyByName_loop (fuel : nat) (name : string) (client : Cloudlets)
    (pageSize offset : Z) : M Policy :=
  match fuel with
  | O => out_of_fuel
  | S fuel' =>
      policies ← invoke (CallListPolicies (listPoliciesRequest pageSize offset))
                        (ListPolicies client (listPoliciesRequest pageSize offset));
      match find (name_is name) policies with
      | Some p => mret p
      | None =>
          if len policies <? pageSize then fail (not_exist name)
          else findPolicyByName_loop fuel' name client pageSize
                 (wrap_int64 (offset + pageSize))
      end
  end.

Definition findPolicyByName (fuel : nat) (name : string) (client : Cloudlets) : M Policy :=
  findPolicyByName_loop fuel name client 1000 0.

(** ** [getLatestPolicyVersion] *)

Definition listPolicyVersionsRequest (policyID pageSize offset : Z) : ListPolicyVersionsRequest :=
  {| LPV_PolicyID := policyID; LPV_IncludeRules := false;
     LPV_PageSize := Some pageSize; LPV_Offset := offset |}.

Definition no_versions : error := Errorf "no policy versions found for given policy".

(** The inner [for _, v := range versions] loop: the running maximum. *)
Definition max_version (version : Z) (versions : list PolicyVersion) : Z :=
  fold_left (λ version v, if PV_Version v >? version then PV_Version v else version)
            versions version.

(** The paging loop of [getLatestPolicyVersion], from the state
    [(version, pageSize, offset)]; it yields the version number found. *)
Fixpoint getLatestPolicyVersion_loop (fuel : nat) (policyID : Z) (client : Cloudlets)
    (version pageSize offset : Z) : M Z :=
  match fuel with
  | O => out_of_fuel
  | S fuel' =>
      versions ← invoke (CallListPolicyVersions (listPolicyVersionsRequest policyID pageSize offset))
                        (ListPolicyVersions client (listPolicyVersionsRequest policyID pageSize offset));
      if len versions =? 0 then fail no_versions
      else
        let version := max_version version versions in
        if len versions <? pageSize then mret version
        else getLatestPolicyVersion_loop fuel' policyID client version pageSize
               (wrap_int64 (offset + pageSize))
  end.

Definition getLatestPolicyVersion (fuel : nat) (policyID : Z) (client : Cloudlets) : M PolicyVersion :=
  version ← getLatestPolicyVersion_loop fuel policyID client 0 1000 0;
  invoke (CallGetPolicyVersion {| GPV_PolicyID := policyID; GPV_Version := version |})
         (GetPolicyVersion client {| GPV_PolicyID := policyID; GPV_Version := version |}).

(** ** [getActiveVersionAndProperties] *)

(** [append] on a slice that may be [nil] ([None]); the result is never [nil]. *)
Definition append_nilable {A : Type} (s : option (list A)) (x : A) : option (list A) :=
  match s with
  | None => Some [x]
  | Some l => Some (l ++ [x])
  end.

(** One turn of the loop over [policy.Activations], on the state
    [(version, associatedProperties)]. *)
Definition activation_step (network : string) (st : Z * option (list string))
    (activation : PolicyActivation) : Z * option (list string) :=
  if bool_decide (Activation_Network activation ≠ network) then st
  else (PolicyInfo_Version (Activation_PolicyInfo activation),
        append_nilable st.2 (PropertyInfo_Name (Activation_PropertyInfo activation))).

Definition getActiveVersionAndProperties (policy : Policy) (network : string)
    : option TFPolicyActivationData :=
  let st := fold_left (activation_step network) (Activations policy) (0, None) in
  match st.2 with
  | None => None
  | Some associatedProperties =>
      Some {| TFA_PolicyID := PolicyID policy;
              TFA_Version := st.1;
              TFA_Properties := associatedProperties |}
  end.

(** ** [getOriginIDs], [getLoadBalancers] *)

(** Go leaves the order of [for k := range m] over a map unspecified, and the
    runtime randomises it.  A [MapRange] is the order the runtime picks for
    each key set; it is an input of a run. *)
Definition MapRange : Type := gset string → list string.

Definition range_ok (order : MapRange) : Prop :=
  ∀ keys : gset string, order keys ≡ₚ elements keys.

Definition not_alb (typeName : string) : error :=
  Errorf ("match rule type is not a MatchRuleALB: " +:+ typeName).

(** The first loop of [getOriginIDs]: the set of origin IDs of the rules. *)
Fixpoint collectOriginIDs (rules : list MatchRule) (originIDs : gset string)
    : error + gset string :=
  match rules with
  | [] => inr originIDs
  | RuleOther typeName :: _ => inl (not_alb typeName)
  | RuleALB ruleALB :: rules' =>
      let originID := OriginID (ForwardSettings ruleALB) in
      if bool_decide (originID ≠ EmptyString) then collectOriginIDs rules' ({[originID]} ∪ originIDs)
      else collectOriginIDs rules' originIDs
  end.

Definition getOriginIDs (order : MapRange) (rules : list MatchRule) : error + list string :=
  match collectOriginIDs rules ∅ with
  | inl e => inl e
  | inr originIDs => inr (order originIDs)
  end.

(** The zero value of [cloudlets.LoadBalancerVersion]. *)
Definition zeroLoadBalancerVersion : LoadBalancerVersion :=
  {| LBV_OriginID := EmptyString; LBV_Version := 0; LBV_Description := EmptyString |}.

(** The inner loop of [getLoadBalancers], on the state [(ver, loadBalancerVersion)]. *)
Definition latest_step (st : Z * LoadBalancerVersion) (version : LoadBalancerVersion)
    : Z * LoadBalancerVersion :=
  if LBV_Version version >? st.1 then (LBV_Version version, version) else st.

Fixpoint getLoadBalancers_loop (client : Cloudlets) (originIDs : list string)
    (loadBalancers : list LoadBalancerVersion) : M (list LoadBalancerVersion) :=
  match originIDs with
  | [] => mret loadBalancers
  | originID :: originIDs' =>
      versions ← invoke (CallListLoadBalancerVersions originID)
                        (ListLoadBalancerVersions client originID);
      let st := fold_left latest_step versions (0, zeroLoadBalancerVersion) in
      if st.1 >? 0 then getLoadBalancers_loop client originIDs' (loadBalancers ++ [st.2])
      else getLoadBalancers_loop client originIDs' loadBalancers
  end.

Definition getLoadBalancers (client : Cloudlets) (originIDs : list string)
    : M (list LoadBalancerVersion) :=
  getLoadBalancers_loop client originIDs [].

(** ** [getApplicationLoadBalancerActivation], [getLoadBalancerActivations] *)

(** [data.Swap(i, j)] on a slice. *)
Definition swap {A : Type} (data : list A) (i j : nat) : list A :=
  match data !! i, data !! j with
  | Some x, Some y => <[i := y]> (<[j := x]> data)
  | _, _ => data
  end.

(** [bits.Len(uint(n))]: the number of bits of [n]. *)
Definition bits_Len (n : nat) : nat :=
  match n with
  | O => O
  | S _ => S (Nat.log2 n)
  end.

(** [Next] of the [xorshift] generator, on its 64-bit state. *)
Definition xorshift_Next (r : Z) : Z :=
  let r := Z.lxor r (Z.shiftl r 13 `mod` 2 ^ 64) in
  let r := Z.lxor r (Z.shiftr r 7) in
  Z.lxor r (Z.shiftl r 17 `mod` 2 ^ 64).

(** The hint [choosePivot] gives about the order of the slice. *)
Inductive sortedHint : Type :=
| unknownHint
| increasingHint
| decreasingHint.

(** The pattern-defeating quicksort behind [sort.Slice] (Go 1.19 and later,
    [sort/zsortfunc.go]), routine by routine.  It reaches the slice only
    through the two callbacks of [lessSwap]: [less], which here may read the
    slice as it stands, and [swap].  The loops of the library that run
    between two indices take as fuel the distance between them, which they
    cannot outlast. *)
Section Pdqsort.
Context {A : Type}.
Variable less : list A → nat → nat → bool.

(** [for j := i; j > a && less(j, j-1); j-- { swap(j, j-1) }] *)
Fixpoint insert_left (a j : nat) (data : list A) : list A :=
  match j with
  | O => data
  | S j' =>
      if (a <? j)%nat && less data j j' then insert_left a j' (swap data j j') else data
  end.

(** [insertionSort_func(data, a, b)]: [for i := a + 1; i < b; i++]. *)
Definition insertionSort_func (data : list A) (a b : nat) : list A :=
  fold_left (λ data i, insert_left a i data) (seq (a + 1) (b - (a + 1))) data.

(** [siftDown_func(data, lo, hi, first)], from [root]; the root moves down
    at every turn, so [hi] turns suffice. *)
Fixpoint siftDown_func (fuel : nat) (data : list A) (root hi first : nat) : list A :=
  match fuel with
  | O => data
  | S fuel' =>
      let child := (2 * root + 1)%nat in
      if (hi <=? child)%nat then data
      else
        let child :=
          if (child + 1 <? hi)%nat && less data (first + child) (first + child + 1)
          then (child + 1)%nat else child in
        if less data (first + root) (first + child)
        then siftDown_func fuel' (swap data (first + root) (first + child)) child hi first
        else data
  end.

(** [heapSort_func(data, a, b)]: build the heap, [for i := (hi-1)/2; i >= 0; i--],
    then pop, [for i := hi - 1; i >= 0; i--]. *)
Definition heapSort_func (data : list A) (a b : nat) : list A :=
  let first := a in
  let lo := 0%nat in
  let hi := (b - a)%nat in
  let data :=
    fold_left (λ data i, siftDown_func hi data i hi first)
              (reverse (seq 0 ((hi - 1) / 2 + 1))) data in
  fold_left (λ data i, siftDown_func hi (swap data first (first + i)) lo i first)
            (reverse (seq 0 hi)) data.

(** [order2_func]: the two indices in order, and the swaps counted. *)
Definition order2_func (data : list A) (x y swaps : nat) : nat * nat * nat :=
  if less data y x then (y, x, S swaps) else (x, y, swaps).

(** [median_func]: the index of the median of three, by three [order2]. *)
Definition median_func (data : list A) (x y z swaps : nat) : nat * nat :=
  let r1 := order2_func data x y swaps in
  let r2 := order2_func data r1.1.2 z r1.2 in
  let r3 := order2_func data r1.1.1 r2.1.1 r2.2 in
  (r3.1.2, r3.2).

Definition medianAdjacent_func (data : list A) (x swaps : nat) : nat * nat :=
  median_func data (x - 1) x (x + 1) swaps.

(** [choosePivot_func(data, a, b)]: a static pivot below 8 elements, the
    median of three below 50, Tukey's ninther from 50 on. *)
Definition choosePivot_func (data : list A) (a b : nat) : nat * sortedHint :=
  let l := (b - a)%nat in
  let i := (a + l / 4 * 1)%nat in
  let j := (a + l / 4 * 2)%nat in
  let k := (a + l / 4 * 3)%nat in
  let chosen : nat * nat :=
    if (8 <=? l)%nat then
      if (50 <=? l)%nat then
        let mi := medianAdjacent_func data i 0 in
        let mj := medianAdjacent_func data j mi.2 in
        let mk := medianAdjacent_func data k mj.2 in
        median_func data mi.1 mj.1 mk.1 mk.2
      else median_func data i j k 0
    else (j, 0%nat) in
  match chosen.2 with
  | 0%nat => (chosen.1, increasingHint)
  | 12%nat => (chosen.1, decreasingHint)
  | _ => (chosen.1, unknownHint)
  end.

(** [reverseRange_func(data, a, b)]: [for i < j { swap(i, j); i++; j-- }]. *)
Fixpoint reverseRange_loop (fuel : nat) (data : list A) (i j : nat) : list A :=
  match fuel with
  | O => data
  | S fuel' =>
      if (i <? j)%nat then reverseRange_loop fuel' (swap data i j) (S i) (j - 1) else data
  end.

Definition reverseRange_func (data : list A) (a b : nat) : list A :=
  reverseRange_loop (b - a) data a (b - 1).

(** [for i <= j && cond(i) { i++ }] *)
Fixpoint scan_right (fuel : nat) (cond : nat → bool) (i j : nat) : nat :=
  match fuel with
  | O => i
  | S fuel' => if (i <=? j)%nat && cond i then scan_right fuel' cond (S i) j else i
  end.

(** [for i <= j && cond(j) { j-- }] *)
Fixpoint scan_left (fuel : nat) (cond : nat → bool) (i j : nat) : nat :=
  match fuel with
  | O => j
  | S fuel' => if (i <=? j)%nat && cond j then scan_left fuel' cond i (j - 1) else j
  end.

(** The shifting loops of [partialInsertionSort_func]:
    [for j := i - 1; j >= 1; j-- { if !less(j, j-1) { break }; swap(j, j-1) }] *)
Fixpoint shift_left (j : nat) (data : list A) : list A :=
  match j with
  | O => data
  | S j' => if less data j j' then shift_left j' (swap data j j') else data
  end.

(** [for j := i + 1; j < b; j++ { if !less(j, j-1) { break }; swap(j, j-1) }] *)
Fixpoint shift_right (fuel : nat) (j b : nat) (data : list A) : list A :=
  match fuel with
  | O => data
  | S fuel' =>
      if (j <? b)%nat && less data j (j - 1)
      then shift_right fuel' (S j) b (swap data j (j - 1))
      else data
  end.

(** [partialInsertionSort_func(data, a, b)], with [maxSteps] turns left;
    it answers whether the slice is sorted at the end. *)
Fixpoint partialInsertionSort_loop (steps : nat) (data : list A) (a b i : nat)
    : list A * bool :=
  match steps with
  | O => (data, false)
  | S steps' =>
      let i := scan_right (b - i) (λ i, negb (less data i (i - 1))) i (b - 1) in
      if (i =? b)%nat then (data, true)
      else if (b - a <? 50)%nat then (data, false)
      else
        let data := swap data i (i - 1) in
        let data := if (2 <=? i - a)%nat then shift_left (i - 1) data else data in
        let data := if (2 <=? b - i)%nat then shift_right (b - (i + 1)) (i + 1) b data
                    else data in
        partialInsertionSort_loop steps' data a b i
  end.

Definition partialInsertionSort_func (data : list A) (a b : nat) : list A * bool :=
  partialInsertionSort_loop 5 data a b (a + 1).

(** The [for { ... }] loop of [partitionEqual_func]; it yields [i]. *)
Fixpoint partitionEqual_loop (fuel : nat) (data : list A) (a i j : nat) : list A * nat :=
  match fuel with
  | O => (data, i)
  | S fuel' =>
      let i := scan_right (S j - i) (λ i, negb (less data a i)) i j in
      let j := scan_left (S j - i) (λ j, less data a j) i j in
      if (j <? i)%nat then (data, i)
      else partitionEqual_loop fuel' (swap data i j) a (S i) (j - 1)
  end.

Definition partitionEqual_func (data : list A) (a b pivot : nat) : list A * nat :=
  partitionEqual_loop (b - a) (swap data a pivot) a (a + 1) (b - 1).

(** The [for { ... }] loop of [partition_func]; it yields [j]. *)
Fixpoint partition_loop (fuel : nat) (data : list A) (a i j : nat) : list A * nat :=
  match fuel with
  | O => (data, j)
  | S fuel' =>
      let i := scan_right (S j - i) (λ i, less data i a) i j in
      let j := scan_left (S j - i) (λ j, negb (less data j a)) i j in
      if (j <? i)%nat then (data, j)
      else partition_loop fuel' (swap data i j) a (S i) (j - 1)
  end.

(** [partition_func(data, a, b, pivot)]: the new place of the pivot, and
    whether the slice was partitioned already. *)
Definition partition_func (data : list A) (a b pivot : nat) : list A * nat * bool :=
  let data := swap data a pivot in
  let i := scan_right (b - (a + 1)) (λ i, less data i a) (a + 1) (b - 1) in
  let j := scan_left (b - i) (λ j, negb (less data j a)) i (b - 1) in
  if (j <? i)%nat then (swap data j a, j, true)
  else
    let r := partition_loop (b - a) (swap data i j) a (S i) (j - 1) in
    (swap r.1 r.2 a, r.2, false).

(** [breakPatterns_func(data, a, b)]: three swaps at places drawn from the
    length. *)
Definition breakPatterns_func (data : list A) (a b : nat) : list A :=
  let length := (b - a)%nat in
  if (8 <=? length)%nat then
    let modulus := 2 ^ Z.of_nat (bits_Len length) in
    let idx := (a + length / 4 * 2 - 1)%nat in
    let other (r : Z) : nat :=
      let other := Z.to_nat (Z.land r (modulus - 1)) in
      if (length <=? other)%nat then (other - length)%nat else other in
    let r1 := xorshift_Next (Z.of_nat length) in
    let r2 := xorshift_Next r1 in
    let r3 := xorshift_Next r2 in
    let data := swap data (idx - 1 + 0) (a + other r1) in
    let data := swap data (idx - 1 + 1) (a + other r2) in
    swap data (idx - 1 + 2) (a + other r3)
  else data.

(** [pdqsort_func(data, a, b, limit)]: its loop from the state
    [(a, b, limit, wasBalanced, wasPartitioned)].  Every turn and every
    call works on fewer elements than the one before; [None] is the end of
    the fuel. *)
Fixpoint pdqsort_func (fuel : nat) (data : list A) (a b limit : nat)
    (wasBalanced wasPartitioned : bool) : option (list A) :=
  match fuel with
  | O => None
  | S fuel' =>
      let length := (b - a)%nat in
      if (length <=? 12)%nat then Some (insertionSort_func data a b)
      else if (limit =? 0)%nat then Some (heapSort_func data a b)
      else
        let data := if wasBalanced then data else breakPatterns_func data a b in
        let limit := if wasBalanced then limit else (limit - 1)%nat in
        let chosen := choosePivot_func data a b in
        let reversed := match chosen.2 with decreasingHint => true | _ => false end in
        let data := if reversed then reverseRange_func data a b else data in
        let pivot := if reversed then (b - 1 - (chosen.1 - a))%nat else chosen.1 in
        let increasing :=
          match chosen.2 with unknownHint => false | _ => true end in
        let partial :=
          if wasBalanced && wasPartitioned && increasing
          then partialInsertionSort_func data a b else (data, false) in
        if partial.2 then Some partial.1
        else
          let data := partial.1 in
          if (0 <? a)%nat && negb (less data (a - 1) pivot) then
            let r := partitionEqual_func data a b pivot in
            pdqsort_func fuel' r.1 r.2 b limit wasBalanced wasPartitioned
          else
            let r := partition_func data a b pivot in
            let mid := r.1.2 in
            let leftLen := (mid - a)%nat in
            let rightLen := (b - mid)%nat in
            let balanceThreshold := (length / 8)%nat in
            if (leftLen <? rightLen)%nat then
              data ← pdqsort_func fuel' r.1.1 a mid limit true true;
              pdqsort_func fuel' data (mid + 1) b limit
                (balanceThreshold <=? leftLen)%nat r.2
            else
              data ← pdqsort_func fuel' r.1.1 (mid + 1) b limit true true;
              pdqsort_func fuel' data a mid limit
                (balanceThreshold <=? rightLen)%nat r.2
  end.
End Pdqsort.

(** [sort.Slice(data, less)] with a [less] that may read the slice:
    [pdqsort_func(lessSwap{less, swap}, 0, length, bits.Len(uint(length)))]. *)
Definition sort_Slice_by {A : Type} (data : list A) (less : list A → nat → nat → bool)
    : list A :=
  default data
    (pdqsort_func less (S (length data)) data 0 (length data) (bits_Len (length data))
       true true).

(** [sort.Slice(data, less)] with a [less] that reads other variables only,
    as the closure of [getApplicationLoadBalancerActivation] does.  [less]
    receives indices, as in Go. *)
Definition sort_Slice {A : Type} (data : list A) (less : nat → nat → bool) : list A :=
  sort_Slice_by data (λ _, less).

(** [activations[i].ActivatedDate].  The sort only passes indices below
    [len(filteredActivations)], which are in range for [activations]. *)
Definition date_at (activations : list LoadBalancerActivation) (i : nat) : string :=
  match activations !! i with
  | Some act => ActivatedDate act
  | None => EmptyString
  end.

Definition getApplicationLoadBalancerActivation (client : Cloudlets) (originID network : string)
    : M (option LoadBalancerActivation) :=
  activations ← invoke (CallListLoadBalancerActivations originID)
                       (ListLoadBalancerActivations client originID);
  let filteredActivations :=
    filter (λ act, LBA_Network act = network) activations in
  let filteredActivations :=
    sort_Slice filteredActivations
      (λ i j, string_gt (date_at activations i) (date_at activations j)) in
  mret (head filteredActivations).

Fixpoint getLoadBalancerActivations_loop (client : Cloudlets) (originIDs : list string)
    (activations : list LoadBalancerActivation) : M (list LoadBalancerActivation) :=
  match originIDs with
  | [] => mret activations
  | originID :: originIDs' =>
      activation ← getApplicationLoadBalancerActivation client originID
                     LoadBalancerActivationNetworkProduction;
      let activations :=
        match activation with Some a => activations ++ [a] | None => activations end in
      activation ← getApplicationLoadBalancerActivation client originID
                     LoadBalancerActivationNetworkStaging;
      let activations :=
        match activation with Some a => activations ++ [a] | None => activations end in
      getLoadBalancerActivations_loop client originIDs' activations
  end.

Definition getLoadBalancerActivations (client : Cloudlets) (originIDs : list string)
    : M (list LoadBalancerActivation) :=
  getLoadBalancerActivations_loop client originIDs [].

(** ** [createPolicy] *)

Definition supportedCloudlets : gset string :=
  list_to_set ["ALB"; "AP"; "AS"; "CD"; "ER"; "FR"; "IG"; "VP"].

(** [if err != nil { return fmt.Errorf("%w: %s", s, err) }] around a step. *)
Definition wrapping {A : Type} (s : sentinel) (m : M A) : M A :=
  match m.2 with
  | Fail e => (m.1, Fail (Wrapf (Named s) (Error e)))
  | _ => m
  end.

Definition lift_result {A : Type} (r : error + A) : M A :=
  ([], match r with inl e => Fail e | inr a => Ret a end).

(** [templates.TemplateProcessor]: [ProcessTemplates] returns an error or [nil]. *)
Definition TemplateProcessor : Type := TFPolicyData → option error.

Definition yield (o : option error) : outcome () :=
  match o with Some e => Fail e | None => Ret () end.

Definition processTemplates (templateProcessor : TemplateProcessor) (data : TFPolicyData) : M () :=
  ([CallProcessTemplates data], yield (templateProcessor data)).

(** The two [if activation := ...; activation != nil] statements. *)
Definition policyActivations (policy : Policy) : gmap string TFPolicyActivationData :=
  let activations : gmap string TFPolicyActivationData := ∅ in
  let activations :=
    match getActiveVersionAndProperties policy PolicyActivationNetworkStaging with
    | Some activationStaging => <["staging" := activationStaging]> activations
    | None => activations
    end in
  match getActiveVersionAndProperties policy PolicyActivationNetworkProduction with
  | Some activationProd => <["prod" := activationProd]> activations
  | None => activations
  end.

(** The [if tfPolicyData.CloudletCode == "ALB"] block; the two slices stay
    empty for every other cloudlet. *)
Definition loadBalancerData (order : MapRange) (client : Cloudlets) (cloudletCode : string)
    (rules : list MatchRule) : M (list LoadBalancerVersion * list LoadBalancerActivation) :=
  if bool_decide (cloudletCode = "ALB") then
    originIDs ← wrapping ErrFetchingVersion (lift_result (getOriginIDs order rules));
    loadBalancers ← wrapping ErrFetchingVersion (getLoadBalancers client originIDs);
    loadBalancerActivations ←
      wrapping ErrFetchingVersion (getLoadBalancerActivations client originIDs);
    mret (loadBalancers, loadBalancerActivations)
  else mret ([], []).

Definition createPolicy (order : MapRange) (fuel : nat) (policyName section : string)
    (client : Cloudlets) (templateProcessor : TemplateProcessor) : M () :=
  policy ← wrapping ErrFetchingPolicy (findPolicyByName fuel policyName client);
  if bool_decide (CloudletCode policy ∉ supportedCloudlets) then
    fail (Wrapf (Named ErrCloudletTypeNotSupported) (CloudletCode policy))
  else
    policyVersion ← wrapping ErrFetchingVersion
                      (getLatestPolicyVersion fuel (PolicyID policy) client);
    lb ← loadBalancerData order client (CloudletCode policy) (PV_MatchRules policyVersion);
    processTemplates templateProcessor
      {| TF_Section := section;
         TF_Name := Name policy;
         TF_CloudletCode := CloudletCode policy;
         TF_GroupID := GroupID policy;
         TF_Description := PV_Description policyVersion;
         TF_MatchRuleFormat := PV_MatchRuleFormat policyVersion;
         TF_MatchRules := PV_MatchRules policyVersion;
         TF_PolicyActivations := policyActivations policy;
         TF_LoadBalancers := lb.1;
         TF_LoadBalancerActivations := lb.2 |}.

(** The data passed to [ProcessTemplates] during a run, in order. *)
Definition processed (calls : list Call) : list TFPolicyData :=
  omap (λ c, match c with CallProcessTemplates d => Some d | _ => None end) calls.

(** ** [checkForResource] of the [dns] package *)

(** A resource of the Terraform state, and the state itself. *)
Record TFResource := {
  Res_Type : string;
  Res_Name : string
}.

Record TFState := { Resources : list TFResource }.

(** A Go call returns, or panics (here: dereferencing a [nil] pointer). *)
Inductive go_result (A : Type) : Type :=
| Returned (a : A)
| Panicked.
Arguments Returned {A} a.
Arguments Panicked {A}.

(** [readTfState] is defined in another file of the package.  It is called
    only while the package variable [tfState] is [nil]; it answers with its
    error ([None] for [nil]) and the value it leaves in [tfState]. *)
Definition ReadTfState : Type := string → option error * option TFState.

(** [checkForResource] on the package variable [tfState]: its result and the
    variable afterwards. *)
Definition checkForResource (readTfState : ReadTfState) (rtype name tfWorkPath : string)
    (tfState : option TFState) : go_result bool * option TFState :=
  let attempt : option error * option TFState :=
    match tfState with
    | None => readTfState tfWorkPath
    | Some _ => (None, tfState)
    end in
  match attempt.1 with
  | Some _ => (Returned false, attempt.2)
  | None =>
      match attempt.2 with
      | None => (Panicked, None)
      | Some st =>
          (Returned
             (existsb (λ r, bool_decide (Res_Type r = rtype) && bool_decide (Res_Name r = name))
                      (Resources st)),
           attempt.2)
      end
  end.

(** ** Paginated listings *)

(** The page requests of a finder that reads [k] pages from page [i] on. *)
Definition page_calls (i k : nat) : list Call :=
  (λ j : nat, CallListPolicies (listPoliciesRequest 1000 (1000 * Z.of_nat j))) <$> seq i k.

(** The client answers the request for page [i + j] with the [j]-th of [pages]. *)
Definition pages_served (client : Cloudlets) (i : nat) (pages : list (list Policy)) : Prop :=
  ∀ (j : nat) (pg : list Policy),
    pages !! j = Some pg →
    ListPolicies client (listPoliciesRequest 1000 (1000 * Z.of_nat (i + j))) = inr pg.

(** A page that does not end the listing and does not hold the name. *)
Definition full_without (name : string) (pg : list Policy) : Prop :=
  1000 ≤ len pg ∧ Forall (λ q, Name q ≠ name) pg.

(** A client in front of a server that holds the policies [every] in a fixed
    order and answers a page request with the slice it asks for. *)
Definition paginate {A : Type} (every : list A) (pageSize offset : Z) : list A :=
  take (Z.to_nat pageSize) (drop (Z.to_nat offset) every).

(** ** Sample data: finding a policy *)

Definition named_policy (id : Z) (name : string) : Policy :=
  {| PolicyID := id; GroupID := 0; Name := name; Policy_Description := EmptyString;
     CloudletID := 0; CloudletCode := "ER"; Activations := [] |}.

(** A full first page without the wanted name, then a short page that has
    it in second position. *)
Definition first_page : list Policy := replicate 1000 (named_policy 1 "some_policy").
Definition second_page : list Policy :=
  [named_policy 9999999 "some_policy"; named_policy 1234567 "test_policy";
   named_policy 7 "test_policy"].

Definition empty_client : Cloudlets :=
  {| ListPolicies := λ _, inr [];
     ListPolicyVersions := λ _, inr [];
     GetPolicyVersion := λ _, inl (Errorf "no such version");
     ListLoadBalancerVersions := λ _, inr [];
     ListLoadBalancerActivations := λ _, inr [] |}.

Definition listing_client (every : list Policy) : Cloudlets :=
  {| ListPolicies := λ req,
       inr (paginate every (default 0 (LP_PageSize req)) (LP_Offset req));
     ListPolicyVersions := ListPolicyVersions empty_client;
     GetPolicyVersion := GetPolicyVersion empty_client;
     ListLoadBalancerVersions := ListLoadBalancerVersions empty_client;
     ListLoadBalancerActivations := ListLoadBalancerActivations empty_client |}.

Definition two_page_client : Cloudlets :=
  {| ListPolicies := λ req,
       if LP_Offset req =? 0 then inr first_page
       else if LP_Offset req =? 1000 then inr second_page
       else inr [];
     ListPolicyVersions := ListPolicyVersions empty_client;
     GetPolicyVersion := GetPolicyVersion empty_client;
     ListLoadBalancerVersions := ListLoadBalancerVersions empty_client;
     ListLoadBalancerActivations := ListLoadBalancerActivations empty_client |}.

(** ** Sample data: versions and activations *)

Definition bare_version (policyID version : Z) : PolicyVersion :=
  {| PV_PolicyID := policyID; PV_Version := version; PV_Description := EmptyString;
     PV_MatchRuleFormat := EmptyString; PV_MatchRules := [] |}.

(** [n] versions numbered from [start], as [prepareVersionsPage] of the tests. *)
Definition versions_page (n : nat) (start : Z) : list PolicyVersion :=
  (λ i : nat, bare_version 123 (start + Z.of_nat i)) <$> seq 0 n.

(** A policy with exactly 1000 versions: one full page, then an empty one. *)
Definition thousand_versions_client : Cloudlets :=
  {| ListPolicies := ListPolicies empty_client;
     ListPolicyVersions := λ req,
       if LPV_Offset req =? 0 then inr (versions_page 1000 1) else inr [];
     GetPolicyVersion := λ req, inr (bare_version (GPV_PolicyID req) (GPV_Version req));
     ListLoadBalancerVersions := ListLoadBalancerVersions empty_client;
     ListLoadBalancerActivations := ListLoadBalancerActivations empty_client |}.

(** A policy with 1500 versions on two pages. *)
Definition two_version_pages_client : Cloudlets :=
  {| ListPolicies := ListPolicies empty_client;
     ListPolicyVersions := λ req,
       if LPV_Offset req =? 0 then inr (versions_page 1000 501)
       else if LPV_Offset req =? 1000 then inr (versions_page 500 1)
       else inr [];
     GetPolicyVersion := λ req, inr (bare_version (GPV_PolicyID req) (GPV_Version req));
     ListLoadBalancerVersions := ListLoadBalancerVersions empty_client;
     ListLoadBalancerActivations := ListLoadBalancerActivations empty_client |}.

Definition version_calls (policyID : Z) (i k : nat) : list Call :=
  (λ j : nat, CallListPolicyVersions (listPolicyVersionsRequest policyID 1000 (1000 * Z.of_nat j)))
    <$> seq i k.

Definition version_pages_served (client : Cloudlets) (policyID : Z) (i : nat)
    (pages : list (list PolicyVersion)) : Prop :=
  ∀ (j : nat) (pg : list PolicyVersion),
    pages !! j = Some pg →
    ListPolicyVersions client (listPolicyVersionsRequest policyID 1000 (1000 * Z.of_nat (i + j)))
    = inr pg.

Definition activation (network : string) (version : Z) (property : string) : PolicyActivation :=
  {| Activation_Network := network;
     Activation_PolicyInfo := {| PolicyInfo_Version := version |};
     Activation_PropertyInfo := {| PropertyInfo_Name := property |} |}.

(** The activation entries of a policy on one network, in history order. *)
Definition entries_on (network : string) (policy : Policy) : list PolicyActivation :=
  filter (λ a, Activation_Network a = network) (Activations policy).

Definition entry_version (a : PolicyActivation) : Z :=
  PolicyInfo_Version (Activation_PolicyInfo a).

Definition entry_property (a : PolicyActivation) : string :=
  PropertyInfo_Name (Activation_PropertyInfo a).

(** Version 2 was activated on staging for one property, then version 1 for
    another. *)
Definition rolled_back_policy : Policy :=
  {| PolicyID := 2; GroupID := 234; Name := "test_policy";
     Policy_Description := "test_policy description"; CloudletID := 0; CloudletCode := "ER";
     Activations := [activation "staging" 2 "prp_0"; activation "prod" 1 "prp_0";
                     activation "staging" 1 "prp_1"] |}.



(** ** Sample data: whole exports *)

Definition exported_version (policyID version : Z) : PolicyVersion :=
  {| PV_PolicyID := policyID; PV_Version := version;
     PV_Description := "Testing exported policy"; PV_MatchRuleFormat := "1.0";
     PV_MatchRules := [RuleOther "cloudlets.MatchRuleER"] |}.

(** An account holding [policy] next to one other policy; the policy has
    versions 1 and 2. *)
Definition single_policy_client (policy : Policy) : Cloudlets :=
  {| ListPolicies := λ req,
       if LP_Offset req =? 0 then inr [named_policy 1 "some policy"; policy] else inr [];
     ListPolicyVersions := λ req,
       if LPV_Offset req =? 0
       then inr [bare_version (LPV_PolicyID req) 1; bare_version (LPV_PolicyID req) 2]
       else inr [];
     GetPolicyVersion := λ req, inr (exported_version (GPV_PolicyID req) (GPV_Version req));
     ListLoadBalancerVersions := λ _, inr [];
     ListLoadBalancerActivations := λ _, inr [] |}.

(** Two activation entries on staging (version 2, properties prp_0 and
    prp_1) and one on prod (version 1, property prp_0). *)
Definition scenario_policy : Policy :=
  {| PolicyID := 2; GroupID := 12345; Name := "test_policy_export";
     Policy_Description := EmptyString; CloudletID := 0; CloudletCode := "ER";
     Activations := [activation "staging" 2 "prp_0"; activation "staging" 2 "prp_1";
                     activation "prod" 1 "prp_0"] |}.

Definition staging_only_policy : Policy :=
  {| PolicyID := 2; GroupID := 234; Name := "test_policy";
     Policy_Description := "test_policy description"; CloudletID := 0; CloudletCode := "ER";
     Activations := [activation "staging" 2 "test_prp_1"; activation "staging" 2 "test_prp_2"] |}.

Definition unsupported_policy : Policy :=
  {| PolicyID := 2; GroupID := 234; Name := "test_policy";
     Policy_Description := "test_policy description"; CloudletID := 0; CloudletCode := "ABC";
     Activations := [] |}.

Definition accepting : TemplateProcessor := λ _, None.

(** ** Sample data: load balancers *)

Definition lb_activation (date network : string) (version : Z) : LoadBalancerActivation :=
  {| ActivatedDate := date; LBA_Network := network; LBA_OriginID := "test_origin";
     LBA_Status := "active"; LBA_Version := version |}.

(** A staging activation listed first, then two production activations,
    the older one before the newer one. *)
Definition listed_activations : list LoadBalancerActivation :=
  [lb_activation "2021-10-29T00:00:30.000Z" "STAGING" 3;
   lb_activation "2021-10-29T00:00:10.000Z" "PRODUCTION" 1;
   lb_activation "2021-10-29T00:00:20.000Z" "PRODUCTION" 2].

Definition activations_client : Cloudlets :=
  {| ListPolicies := ListPolicies empty_client;
     ListPolicyVersions := ListPolicyVersions empty_client;
     GetPolicyVersion := GetPolicyVersion empty_client;
     ListLoadBalancerVersions := ListLoadBalancerVersions empty_client;
     ListLoadBalancerActivations := λ _, inr listed_activations |}.

Definition alb_rule (originID : string) : MatchRule :=
  RuleALB {| ALB_Name := "some rule"; ALB_ID := 1234;
             ForwardSettings := {| OriginID := originID |} |}.

Definition lb_version (originID : string) (version : Z) : LoadBalancerVersion :=
  {| LBV_OriginID := originID; LBV_Version := version; LBV_Description := EmptyString |}.

(** An ALB policy whose rules forward to two origins, each with load
    balancer versions 1 and 2 and no activation. *)
Definition alb_client : Cloudlets :=
  {| ListPolicies := λ req,
       if LP_Offset req =? 0
       then inr [{| PolicyID := 2; GroupID := 234; Name := "test_policy";
                    Policy_Description := EmptyString; CloudletID := 0; CloudletCode := "ALB";
                    Activations := [] |}]
       else inr [];
     ListPolicyVersions := λ req,
       if LPV_Offset req =? 0 then inr [bare_version 2 1; bare_version 2 2] else inr [];
     GetPolicyVersion := λ req,
       inr {| PV_PolicyID := GPV_PolicyID req; PV_Version := GPV_Version req;
              PV_Description := "version 2 description"; PV_MatchRuleFormat := "1.0";
              PV_MatchRules := [alb_rule "origin_a"; alb_rule "origin_b"; alb_rule "origin_a"] |};
     ListLoadBalancerVersions := λ originID, inr [lb_version originID 1; lb_version originID 2];
     ListLoadBalancerActivations := λ _, inr [] |}.

(** Two iteration orders the Go runtime may pick. *)
Definition forwards : MapRange := elements.
Definition backwards : MapRange := λ keys, reverse (elements keys).

(** ** Sample data: Terraform state *)

Definition zone_state : TFState :=
  {| Resources := [{| Res_Type := "akamai_dns_record"; Res_Name := "example_com_www_A" |};
                   {| Res_Type := "akamai_dns_zone"; Res_Name := "example_com" |}] |}.

Definition unreadable : ReadTfState :=
  λ _, (Some (Errorf "open terraform.tfstate: no such file or directory"), None).

Definition readable : ReadTfState := λ _, (None, Some zone_state).

(** ** Sample data: paging without end, paging into an error *)

(** A server that answers every page request with a full page. *)
Definition endless_client : Cloudlets :=
  {| ListPolicies := λ _, inr first_page;
     ListPolicyVersions := λ _, inr (versions_page 1000 1);
     GetPolicyVersion := GetPolicyVersion empty_client;
     ListLoadBalancerVersions := ListLoadBalancerVersions empty_client;
     ListLoadBalancerActivations := ListLoadBalancerActivations empty_client |}.

(** One full page, then the API fails. *)
Definition failing_second_page_client : Cloudlets :=
  {| ListPolicies := λ req,
       if LP_Offset req =? 0 then inr first_page else inl (Errorf "oops");
     ListPolicyVersions := λ req,
       if LPV_Offset req =? 0 then inr (versions_page 1000 1) else inl (Errorf "oops");
     GetPolicyVersion := GetPolicyVersion empty_client;
     ListLoadBalancerVersions := ListLoadBalancerVersions empty_client;
     ListLoadBalancerActivations := ListLoadBalancerActivations empty_client |}.

(** One full page, then a short page, neither with the wanted name. *)
Definition two_pages_without_client : Cloudlets :=
  {| ListPolicies := λ req,
       if LP_Offset req =? 0 then inr first_page
       else inr [named_policy 9999999 "some_policy"];
     ListPolicyVersions := ListPolicyVersions empty_client;
     GetPolicyVersion := GetPolicyVersion empty_client;
     ListLoadBalancerVersions := ListLoadBalancerVersions empty_client;
     ListLoadBalancerActivations := ListLoadBalancerActivations empty_client |}.



(** ** Load balancers per origin *)

(** What [getLoadBalancers] keeps of one origin's versions: the result of its
    inner loop, if the version found is positive. *)
Definition latestLoadBalancer (versions : list LoadBalancerVersion) : option LoadBalancerVersion :=
  let st := fold_left latest_step versions (0, zeroLoadBalancerVersion) in
  if st.1 >? 0 then Some st.2 else None.

(** The load balancer API fails for origin_b only. *)
Definition lb_failing_client : Cloudlets :=
  {| ListPolicies := ListPolicies alb_client;
     ListPolicyVersions := ListPolicyVersions alb_client;
     GetPolicyVersion := GetPolicyVersion alb_client;
     ListLoadBalancerVersions := λ originID,
       if String.eqb originID "origin_b" then inl (Errorf "oops")
       else inr [lb_version originID 1; lb_version originID 2];
     ListLoadBalancerActivations := λ originID,
       if String.eqb originID "origin_b" then inl (Errorf "oops") else inr [] |}.

(** ** The activation chosen for a network *)

(** At most [n] of the listed activations are on any one network. *)
Definition at_most_on_a_network (n : nat) (activations : list LoadBalancerActivation) : Prop :=
  ∀ network : string,
    (length (filter (λ act, LBA_Network act = network) activations) ≤ n)%nat.

(** What [getApplicationLoadBalancerActivation] returns once the API has
    listed [activations], at most 12 of them on the network, so that
    [sort.Slice] is the insertion sort: the head of the filtered slice after
    that sort. *)
Definition chosenActivation (activations : list LoadBalancerActivation) (network : string)
    : option LoadBalancerActivation :=
  head (insertionSort_func
          (λ _ i j, string_gt (date_at activations i) (date_at activations j))
          (filter (λ act, LBA_Network act = network) activations)
          0 (length (filter (λ act, LBA_Network act = network) activations))).

(** The activations kept for one origin: production first, then staging. *)
Definition originActivations (activations : list LoadBalancerActivation)
    : list LoadBalancerActivation :=
  option_list (chosenActivation activations LoadBalancerActivationNetworkProduction)
  ++ option_list (chosenActivation activations LoadBalancerActivationNetworkStaging).

(** ** Sample data: exports that fail *)

(** The policy is found, listing its versions fails. *)
Definition versions_failing_client : Cloudlets :=
  {| ListPolicies := ListPolicies (single_policy_client staging_only_policy);
     ListPolicyVersions := λ _, inl (Errorf "oops");
     GetPolicyVersion := GetPolicyVersion empty_client;
     ListLoadBalancerVersions := ListLoadBalancerVersions empty_client;
     ListLoadBalancerActivations := ListLoadBalancerActivations empty_client |}.

(** An ALB policy whose latest version holds a rule of another cloudlet. *)
Definition mixed_rules_client : Cloudlets :=
  {| ListPolicies := ListPolicies alb_client;
     ListPolicyVersions := ListPolicyVersions alb_client;
     GetPolicyVersion := λ req,
       inr {| PV_PolicyID := GPV_PolicyID req; PV_Version := GPV_Version req;
              PV_Description := "version 2 description"; PV_MatchRuleFormat := "1.0";
              PV_MatchRules := [alb_rule "origin_a"; RuleOther "*cloudlets.MatchRuleER"] |};
     ListLoadBalancerVersions := ListLoadBalancerVersions alb_client;
     ListLoadBalancerActivations := ListLoadBalancerActivations alb_client |}.

(** The ALB policy of [alb_client], with three activations listed for each
    of its origins. *)
Definition alb_activations_client : Cloudlets :=
  {| ListPolicies := ListPolicies alb_client;
     ListPolicyVersions := ListPolicyVersions alb_client;
     GetPolicyVersion := GetPolicyVersion alb_client;
     ListLoadBalancerVersions := ListLoadBalancerVersions alb_client;
     ListLoadBalancerActivations := λ _, inr listed_activations |}.

Definition alb_policy : Policy :=
  {| PolicyID := 2; GroupID := 234; Name := "test_policy";
     Policy_Description := EmptyString; CloudletID := 0; CloudletCode := "ALB";
     Activations := [] |}.

Definition alb_version : PolicyVersion :=
  {| PV_PolicyID := 2; PV_Version := 2;
     PV_Description := "version 2 description"; PV_MatchRuleFormat := "1.0";
     PV_MatchRules := [alb_rule "origin_a"; alb_rule "origin_b"; alb_rule "origin_a"] |}.

(** ** [useTemplate] of the [dns] package *)

(** [strings.TrimLeft(res, "\n")]: drops the leading line feeds. *)
Fixpoint trimLeftNewlines (res : string) : string :=
  match res with
  | String c rest => if Ascii.eqb c "010" then trimLeftNewlines rest else res
  | EmptyString => EmptyString
  end.

(** What executing a template on the data at hand comes to: an error, or the
    bytes written to the buffer; a run-time panic inside the library is not
    recovered by it. *)
Definition Template : Type := go_result (error + string).

(** The template set [tmpl]: [tmpl.Lookup(name)] is the template of that
    name, or nil when the set holds none. *)
Record TemplateSet := { tmpl_Lookup : string → option Template }.

(** [t.Execute(&buf, data)] on the pointer [Lookup] gave: the library reads
    the fields of [t] unguarded, so the nil template panics. *)
Definition Execute (t : option Template) : go_result (error + string) :=
  match t with
  | Some run => run
  | None => Panicked
  end.

Definition useTemplate (tmpl : TemplateSet) (templateName : string) (trimBeginning : bool)
    : go_result string :=
  match Execute (tmpl_Lookup tmpl templateName) with
  | Panicked => Panicked
  | Returned (inl _) => Returned EmptyString
  | Returned (inr res) => Returned (if trimBeginning then trimLeftNewlines res else res)
  end.

(** A template set with two names: one template writes two line feeds and a
    line, the other fails. *)
Definition two_templates : TemplateSet :=
  {| tmpl_Lookup := λ name,
       if String.eqb name "zone.tmpl"
       then Some (Returned (inr (String "010" (String "010" "zone"))))
       else if String.eqb name "broken.tmpl"
       then Some (Returned (inl (Errorf "can't evaluate field")))
       else None |}.

(** [n] line feeds. *)
Fixpoint newlines (n : nat) : string :=
  match n with
  | O => EmptyString
  | S n' => String "010" (newlines n')
  end.

(** ** Vocabulary: a policy with another activation history *)

Definition with_activations (policy : Policy) (activations : list PolicyActivation) : Policy :=
  {| PolicyID := PolicyID policy; GroupID := GroupID policy; Name := Name policy;
     Policy_Description := Policy_Description policy; CloudletID := CloudletID policy;
     CloudletCode := CloudletCode policy; Activations := activations |}.

Definition has_resource (rtype name : string) (st : TFState) : Prop :=
  ∃ r, r ∈ Resources st ∧ Res_Type r = rtype ∧ Res_Name r = name.



(** ** Sample data: thirteen activations on one network *)

Definition production_on (day : string) (version : Z) : LoadBalancerActivation :=
  lb_activation ("2021-10-" +:+ day +:+ "T00:00:00.000Z") "PRODUCTION" version.

Definition thirteen_activations : list LoadBalancerActivation :=
  [production_on "07" 1; production_on "03" 2; production_on "11" 3; production_on "05" 4;
   production_on "13" 5; production_on "02" 6; production_on "09" 7; production_on "01" 8;
   production_on "12" 9; production_on "04" 10; production_on "10" 11; production_on "06" 12;
   production_on "08" 13].

Definition thirteen_client : Cloudlets :=
  {| ListPolicies := ListPolicies empty_client;
     ListPolicyVersions := ListPolicyVersions empty_client;
     GetPolicyVersion := GetPolicyVersion empty_client;
     ListLoadBalancerVersions := ListLoadBalancerVersions empty_client;
     ListLoadBalancerActivations := λ _, inr thirteen_activations |}.

(** A [less] as [sort.Slice] expects it: it compares the elements standing at
    the two places of the slice being sorted. *)
Definition int_less (data : list Z) (i j : nat) : bool :=
  match data !! i, data !! j with
  | Some x, Some y => x <? y
  | _, _ => false
  end.

(** * Properties *)

(** ** The monad *)

Lemma bind_invoke_ok {A B : Type} (c : Call) (r : error + A) (a : A) (k : A → M B) :
  r = inr a → invoke c r ≫= k = (c :: (k a).1, (k a).2).
Proof. intros ->. reflexivity. Qed.

Lemma bind_invoke_err {A B : Type} (c : Call) (r : error + A) (e : error) (k : A → M B) :
  r = inl e → invoke c r ≫= k = ([c], Fail e).
Proof. intros ->. reflexivity. Qed.

Lemma bind_ret_run {A B : Type} (m : M A) (a : A) (k : A → M B) :
  m.2 = Ret a → m ≫= k = (m.1 ++ (k a).1, (k a).2).
Proof. unfold mbind, M_bind. intros ->. reflexivity. Qed.

Lemma bind_fail_run {A B : Type} (m : M A) (e : error) (k : A → M B) :
  m.2 = Fail e → m ≫= k = (m.1, Fail e).
Proof. unfold mbind, M_bind. intros ->. reflexivity. Qed.

Lemma wrapping_ret {A : Type} (s : sentinel) (m : M A) (a : A) :
  m.2 = Ret a → wrapping s m = m.
Proof. unfold wrapping. intros ->. reflexivity. Qed.

Lemma wrap_int64_small (z : Z) : - 2 ^ 63 ≤ z ≤ max_int64 → wrap_int64 z = z.
Proof.
  unfold wrap_int64, max_int64. intros Hz.
  rewrite Z.mod_small by lia. lia.
Qed.

(** ** Finding a policy by name *)

Lemma find_name_absent (name : string) (pg : list Policy) :
  Forall (λ q, Name q ≠ name) pg → find (name_is name) pg = None.
Proof.
  induction 1 as [|q pg Hq _ IH]; [reflexivity|].
  simpl. unfold name_is at 1. rewrite bool_decide_eq_false_2 by exact Hq. exact IH.
Qed.

Lemma find_name_first (name : string) (pre post : list Policy) (p : Policy) :
  Forall (λ q, Name q ≠ name) pre → Name p = name →
  find (name_is name) (pre ++ p :: post) = Some p.
Proof.
  intros Hpre Hp. induction Hpre as [|q pre Hq _ IH]; simpl.
  - unfold name_is. rewrite bool_decide_eq_true_2 by exact Hp. reflexivity.
  - unfold name_is at 1. rewrite bool_decide_eq_false_2 by exact Hq. exact IH.
Qed.

Lemma findPolicyByName_loop_found (client : Cloudlets) (name : string)
    (pre post : list Policy) (p : Policy) (before : list (list Policy)) :
  Forall (λ q, Name q ≠ name) pre → Name p = name →
  Forall (full_without name) before →
  ∀ (i fuel : nat),
    pages_served client i (before ++ [pre ++ p :: post]) →
    1000 * Z.of_nat (i + length before) ≤ max_int64 →
    (length before < fuel)%nat →
    findPolicyByName_loop fuel name client 1000 (1000 * Z.of_nat i)
    = (page_calls i (S (length before)), Ret p).
Proof.
  intros Hpre Hp Hbefore. induction Hbefore as [|pg before [Hlen Hpg] _ IH];
    intros i fuel Hserved Hmax Hfuel.
  - destruct fuel as [|fuel]; [simpl in Hfuel; lia|].
    cbn [findPolicyByName_loop].
    pose proof (Hserved 0%nat _ eq_refl) as H0. rewrite Nat.add_0_r in H0.
    rewrite (bind_invoke_ok _ _ _ _ H0).
    rewrite (find_name_first name pre post p Hpre Hp). reflexivity.
  - destruct fuel as [|fuel]; [simpl in Hfuel; lia|].
    simpl in Hmax, Hfuel.
    cbn [findPolicyByName_loop].
    pose proof (Hserved 0%nat _ eq_refl) as H0. rewrite Nat.add_0_r in H0.
    rewrite (bind_invoke_ok _ _ _ _ H0).
    rewrite (find_name_absent name pg Hpg).
    destruct (Z.ltb_spec (len pg) 1000) as [Hlt|_]; [lia|].
    rewrite wrap_int64_small by (unfold max_int64 in *; lia).
    replace (1000 * Z.of_nat i + 1000) with (1000 * Z.of_nat (S i)) by lia.
    rewrite (IH (S i) fuel).
    + reflexivity.
    + intros j q Hq. replace (S i + j)%nat with (i + S j)%nat by lia.
      apply Hserved. exact Hq.
    + replace (S i + length before)%nat with (i + S (length before))%nat by lia.
      exact Hmax.
    + lia.
Qed.

(** C1. When the wanted name first appears on page [k] of a paginated listing
    (the [k - 1] pages [before] it are full and do not hold the name, and the
    page itself is [pre ++ p :: post] with no match in [pre]), the finder
    makes exactly [k] page requests, with page size 1000 and offsets
    0, 1000, ..., (k-1)*1000, and returns [p], wherever [p] stands in its
    page.  Names are compared by string equality, hence with case.  The
    offsets are Go [int]s, so [(k-1)*1000] has to fit 64 bits. *)
Theorem findPolicyByName_found_on_page_k (client : Cloudlets) (name : string)
    (before : list (list Policy)) (pre post : list Policy) (p : Policy) (fuel : nat) :
  pages_served client 0 (before ++ [pre ++ p :: post]) →
  Forall (full_without name) before →
  Forall (λ q, Name q ≠ name) pre →
  Name p = name →
  1000 * len before ≤ max_int64 →
  (length before < fuel)%nat →
  findPolicyByName fuel name client = (page_calls 0 (S (length before)), Ret p).
Proof.
  intros Hserved Hbefore Hpre Hp Hmax Hfuel.
  apply (findPolicyByName_loop_found client name pre post p before Hpre Hp Hbefore 0%nat fuel);
    [exact Hserved | exact Hmax | exact Hfuel].
Qed.

Example page_calls_three :
  page_calls 0 3 =
  [CallListPolicies (listPoliciesRequest 1000 0);
   CallListPolicies (listPoliciesRequest 1000 1000);
   CallListPolicies (listPoliciesRequest 1000 2000)].
Proof. reflexivity. Qed.

Example name_is_case_sensitive :
  find (name_is "test_policy") [named_policy 1 "Test_Policy"] = None.
Proof. reflexivity. Qed.

Lemma findPolicyByName_two_pages :
  findPolicyByName 2 "test_policy" two_page_client
  = (page_calls 0 2, Ret (named_policy 1234567 "test_policy")).
Proof.
  apply (findPolicyByName_found_on_page_k two_page_client "test_policy" [first_page]
           [named_policy 9999999 "some_policy"] [named_policy 7 "test_policy"]
           (named_policy 1234567 "test_policy") 2).
  - intros [|[|j]] pg Hj; simpl in Hj; inversion Hj; reflexivity.
  - constructor; [split|constructor].
    + vm_compute. discriminate.
    + apply Forall_replicate. simpl. discriminate.
  - constructor; [simpl; discriminate | constructor].
  - reflexivity.
  - vm_compute. discriminate.
  - simpl. lia.
Defined.

(** The same for a server-side listing cut into pages of 1000: when [p] is
    the first policy of the wanted name and [k] whole pages come before its
    page, the finder makes [k + 1] requests and returns [p]. *)
Lemma findPolicyByName_loop_listing (every : list Policy) (name : string) (p : Policy)
    (rest : list Policy) :
  Name p = name → len every ≤ max_int64 →
  ∀ (fuel i k : nat) (skipped : list Policy),
    drop (1000 * i) every = skipped ++ p :: rest →
    Forall (λ q, Name q ≠ name) skipped →
    (1000 * k ≤ length skipped < 1000 * S k)%nat →
    (k < fuel)%nat →
    findPolicyByName_loop fuel name (listing_client every) 1000 (1000 * Z.of_nat i)
    = (page_calls i (S k), Ret p).
Proof.
  intros Hp Hmax. induction fuel as [|fuel IH]; intros i k skipped Hdrop Hskipped Hk Hfuel;
    [lia|].
  cbn [findPolicyByName_loop].
  rewrite (bind_invoke_ok _ _ (paginate every 1000 (1000 * Z.of_nat i)) _ eq_refl).
  unfold paginate.
  replace (Z.to_nat (1000 * Z.of_nat i)) with (1000 * i)%nat by lia.
  replace (Z.to_nat 1000) with 1000%nat by lia.
  rewrite Hdrop.
  destruct (decide (length skipped < 1000)%nat) as [Hshort|Hlong].
  - rewrite take_app_ge by lia.
    destruct (1000 - length skipped)%nat as [|m] eqn:Hm; [lia|]. cbn [take].
    rewrite (find_name_first name skipped (take m rest) p Hskipped Hp).
    replace k with 0%nat by lia. reflexivity.
  - rewrite take_app_le by lia.
    rewrite (find_name_absent name (take 1000 skipped)) by (by apply Forall_take).
    assert (len (take 1000 skipped) = 1000) as Hlen.
    { unfold len. rewrite length_take. lia. }
    rewrite Hlen. cbn [Z.ltb Z.compare Pos.compare Pos.compare_cont].
    assert (1000 * Z.of_nat i + 1000 ≤ len every) as Hin.
    { assert (length (drop (1000 * i) every) = length (skipped ++ p :: rest)) as Hl
        by (by rewrite Hdrop).
      rewrite length_drop, length_app in Hl. unfold len. cbn [length] in Hl. lia. }
    rewrite wrap_int64_small by (unfold max_int64 in *; lia).
    replace (1000 * Z.of_nat i + 1000) with (1000 * Z.of_nat (S i)) by lia.
    destruct k as [|k]; [lia|].
    rewrite (IH (S i) k (drop 1000 skipped)).
    + reflexivity.
    + replace (1000 * S i)%nat with (1000 * i + 1000)%nat by lia.
      rewrite <- drop_drop, Hdrop. apply drop_app_le. lia.
    + by apply Forall_drop.
    + rewrite length_drop. lia.
    + lia.
Qed.

Lemma findPolicyByName_in_listing (name : string) (skipped rest : list Policy) (p : Policy)
    (k fuel : nat) :
  Forall (λ q, Name q ≠ name) skipped → Name p = name →
  len (skipped ++ p :: rest) ≤ max_int64 →
  (1000 * k ≤ length skipped < 1000 * S k)%nat →
  (k < fuel)%nat →
  findPolicyByName fuel name (listing_client (skipped ++ p :: rest))
  = (page_calls 0 (S k), Ret p).
Proof.
  intros Hskipped Hp Hmax Hk Hfuel.
  apply (findPolicyByName_loop_listing (skipped ++ p :: rest) name p rest Hp Hmax
           fuel 0%nat k skipped); [reflexivity | exact Hskipped | exact Hk | exact Hfuel].
Qed.

(** C3. When every page the client returns is shorter than the page size and
    holds no policy of the wanted name, the finder ends after its first
    request, whatever the fuel (one unit suffices), with the not-found error. *)
Theorem findPolicyByName_short_pages_not_found (client : Cloudlets) (name : string)
    (fuel : nat) :
  (∀ req : ListPoliciesRequest, ∃ pg : list Policy,
      ListPolicies client req = inr pg ∧ len pg < 1000 ∧ Forall (λ q, Name q ≠ name) pg) →
  (0 < fuel)%nat →
  findPolicyByName fuel name client
  = ([CallListPolicies (listPoliciesRequest 1000 0)], Fail (not_exist name)).
Proof.
  intros Hpages Hfuel. destruct fuel as [|fuel]; [lia|].
  destruct (Hpages (listPoliciesRequest 1000 0)) as (pg & Hpg & Hlen & Hname).
  unfold findPolicyByName. cbn [findPolicyByName_loop].
  rewrite (bind_invoke_ok _ _ _ _ Hpg).
  rewrite (find_name_absent name pg Hname).
  destruct (Z.ltb_spec (len pg) 1000) as [_|Hge]; [reflexivity | lia].
Qed.

Lemma findPolicyByName_empty_listing :
  findPolicyByName 1 "test_policy" empty_client
  = ([CallListPolicies (listPoliciesRequest 1000 0)], Fail (not_exist "test_policy")).
Proof.
  apply (findPolicyByName_short_pages_not_found empty_client "test_policy" 1).
  - intros req. exists []. split; [reflexivity|]. split; [reflexivity | constructor].
  - lia.
Defined.

(** ** The latest version of a policy *)

Lemma max_version_ge (versions : list PolicyVersion) :
  ∀ version, version ≤ max_version version versions.
Proof.
  unfold max_version. induction versions as [|v versions IH]; intros version; simpl; [lia|].
  destruct (Z.gtb_spec (PV_Version v) version); [|apply IH].
  etransitivity; [|apply IH]. lia.
Qed.

Lemma max_version_upper (versions : list PolicyVersion) :
  ∀ version v, v ∈ versions → PV_Version v ≤ max_version version versions.
Proof.
  unfold max_version. induction versions as [|w versions IH]; intros version v Hv.
  - inversion Hv.
  - simpl. apply elem_of_cons in Hv as [->|Hv]; [|by apply IH].
    etransitivity; [|apply max_version_ge].
    destruct (Z.gtb_spec (PV_Version w) version); lia.
Qed.

Lemma max_version_attained (versions : list PolicyVersion) :
  ∀ version, max_version version versions = version
             ∨ ∃ v, v ∈ versions ∧ PV_Version v = max_version version versions.
Proof.
  unfold max_version. induction versions as [|w versions IH]; intros version; simpl; [by left|].
  destruct (IH (if PV_Version w >? version then PV_Version w else version)) as [Heq|(v & Hv & Heq)].
  - rewrite Heq. destruct (Z.gtb_spec (PV_Version w) version); [|by left].
    right. exists w. split; [left | reflexivity].
  - right. exists v. split; [by right | exact Heq].
Qed.

Lemma max_version_app (l1 l2 : list PolicyVersion) (version : Z) :
  max_version (max_version version l1) l2 = max_version version (l1 ++ l2).
Proof. unfold max_version. by rewrite fold_left_app. Qed.

(** Where every page fetched has an entry, the paging loop reads all pages up
    to the first short one and yields the maximum over all of them. *)
Lemma getLatestPolicyVersion_loop_all_pages (client : Cloudlets) (policyID : Z)
    (last_page : list PolicyVersion) (before : list (list PolicyVersion)) :
  0 < len last_page < 1000 →
  Forall (λ pg, 1000 ≤ len pg) before →
  ∀ (i fuel : nat) (version : Z),
    version_pages_served client policyID i (before ++ [last_page]) →
    1000 * Z.of_nat (i + length before) ≤ max_int64 →
    (length before < fuel)%nat →
    getLatestPolicyVersion_loop fuel policyID client version 1000 (1000 * Z.of_nat i)
    = (version_calls policyID i (S (length before)),
       Ret (max_version version (concat (before ++ [last_page])))).
Proof.
  intros Hlast Hbefore. induction Hbefore as [|pg before Hlen _ IH];
    intros i fuel version Hserved Hmax Hfuel.
  - destruct fuel as [|fuel]; [simpl in Hfuel; lia|].
    cbn [getLatestPolicyVersion_loop].
    pose proof (Hserved 0%nat _ eq_refl) as H0. rewrite Nat.add_0_r in H0.
    rewrite (bind_invoke_ok _ _ _ _ H0).
    destruct (Z.eqb_spec (len last_page) 0); [lia|].
    destruct (Z.ltb_spec (len last_page) 1000); [|lia].
    simpl. by rewrite app_nil_r.
  - destruct fuel as [|fuel]; [simpl in Hfuel; lia|].
    simpl in Hmax, Hfuel.
    cbn [getLatestPolicyVersion_loop].
    pose proof (Hserved 0%nat _ eq_refl) as H0. rewrite Nat.add_0_r in H0.
    rewrite (bind_invoke_ok _ _ _ _ H0).
    destruct (Z.eqb_spec (len pg) 0); [lia|].
    destruct (Z.ltb_spec (len pg) 1000); [lia|].
    rewrite wrap_int64_small by (unfold max_int64 in *; lia).
    replace (1000 * Z.of_nat i + 1000) with (1000 * Z.of_nat (S i)) by lia.
    rewrite (IH (S i) fuel).
    + cbn [app concat]. by rewrite max_version_app.
    + intros j q Hq. replace (S i + j)%nat with (i + S j)%nat by lia.
      apply Hserved. exact Hq.
    + replace (S i + length before)%nat with (i + S (length before))%nat by lia.
      exact Hmax.
    + lia.
Qed.

(** X5. With a short last page that is not empty, the resolver asks for the
    maximum over all pages, once, and passes on what that request gives. *)
Lemma getLatestPolicyVersion_all_pages (client : Cloudlets) (policyID : Z)
    (before : list (list PolicyVersion)) (last_page : list PolicyVersion) (fuel : nat) :
  version_pages_served client policyID 0 (before ++ [last_page]) →
  Forall (λ pg, 1000 ≤ len pg) before →
  0 < len last_page < 1000 →
  1000 * len before ≤ max_int64 →
  (length before < fuel)%nat →
  let latest := {| GPV_PolicyID := policyID;
                   GPV_Version := max_version 0 (concat (before ++ [last_page])) |} in
  getLatestPolicyVersion fuel policyID client
  = (version_calls policyID 0 (S (length before)) ++ [CallGetPolicyVersion latest],
     match GetPolicyVersion client latest with
     | inl e => Fail e
     | inr policyVersion => Ret policyVersion
     end).
Proof.
  intros Hserved Hbefore Hlast Hmax Hfuel latest. unfold getLatestPolicyVersion.
  pose proof (getLatestPolicyVersion_loop_all_pages client policyID last_page before
                Hlast Hbefore 0%nat fuel 0 Hserved Hmax Hfuel) as Hloop.
  change (1000 * Z.of_nat 0) with 0 in Hloop. rewrite Hloop.
  reflexivity.
Qed.

Lemma getLatestPolicyVersion_two_pages :
  getLatestPolicyVersion 2 123 two_version_pages_client
  = (version_calls 123 0 2 ++ [CallGetPolicyVersion {| GPV_PolicyID := 123; GPV_Version := 1500 |}],
     Ret (bare_version 123 1500)).
Proof.
  apply (getLatestPolicyVersion_all_pages two_version_pages_client 123
           [versions_page 1000 501] (versions_page 500 1) 2).
  - intros [|[|j]] pg Hj; simpl in Hj; inversion Hj; reflexivity.
  - constructor; [vm_compute; discriminate | constructor].
  - split; vm_compute; reflexivity.
  - vm_compute. discriminate.
  - simpl. lia.
Defined.

(** An empty first page is the error "no policy versions found". *)
Lemma getLatestPolicyVersion_no_versions (client : Cloudlets) (policyID : Z) (fuel : nat) :
  ListPolicyVersions client (listPolicyVersionsRequest policyID 1000 0) = inr [] →
  getLatestPolicyVersion (S fuel) policyID client
  = (version_calls policyID 0 1, Fail no_versions).
Proof.
  intros Hempty. unfold getLatestPolicyVersion. cbn [getLatestPolicyVersion_loop].
  rewrite (bind_invoke_ok _ _ _ _ Hempty). reflexivity.
Qed.

(** An error of the first page request is returned as it is. *)
Lemma getLatestPolicyVersion_page_error (client : Cloudlets) (policyID : Z) (fuel : nat)
    (e : error) :
  ListPolicyVersions client (listPolicyVersionsRequest policyID 1000 0) = inl e →
  getLatestPolicyVersion (S fuel) policyID client = (version_calls policyID 0 1, Fail e).
Proof.
  intros Herr. unfold getLatestPolicyVersion. cbn [getLatestPolicyVersion_loop].
  rewrite (bind_invoke_err _ _ _ _ Herr). reflexivity.
Qed.

(** C2. A policy with exactly 1000 versions: the first page is full, the
    second is empty.  The maximum over the pages fetched is 1000 and the
    detail request for it would succeed, yet the resolver stops at the empty
    second page with "no policy versions found" and never asks for a version. *)
Theorem getLatestPolicyVersion_full_then_empty (fuel : nat) :
  max_version 0 (concat [versions_page 1000 1; []]) = 1000 ∧
  GetPolicyVersion thousand_versions_client {| GPV_PolicyID := 123; GPV_Version := 1000 |}
    = inr (bare_version 123 1000) ∧
  getLatestPolicyVersion (S (S fuel)) 123 thousand_versions_client
    = (version_calls 123 0 2, Fail no_versions).
Proof.
  split; [vm_compute; reflexivity|]. split; [reflexivity|].
  vm_compute. reflexivity.
Qed.

(** ** Folding the activation history *)

Lemma fold_activation_step (network : string) (acts : list PolicyActivation) :
  let entries := filter (λ a, Activation_Network a = network) acts in
  fold_left (activation_step network) acts (0, None)
  = (default 0 (entry_version <$> last entries),
     match entries with
     | [] => None
     | _ => Some (entry_property <$> entries)
     end).
Proof.
  induction acts as [|a acts IH] using rev_ind; [reflexivity|].
  cbn zeta in *. rewrite fold_left_app, IH, filter_app. cbn [fold_left].
  unfold activation_step at 1. cbn [fst snd].
  destruct (decide (Activation_Network a = network)) as [Heq|Hne].
  - rewrite bool_decide_eq_false_2 by (intros Hn; exact (Hn Heq)).
    rewrite filter_cons_True, filter_nil by exact Heq.
    rewrite last_snoc, fmap_app. cbn [fmap option_fmap option_map default list_fmap].
    f_equal.
    destruct (filter (λ a0, Activation_Network a0 = network) acts) as [|b l]; reflexivity.
  - rewrite bool_decide_eq_true_2 by exact Hne.
    rewrite filter_cons_False, filter_nil, app_nil_r by exact Hne.
    reflexivity.
Qed.

(** What the aggregator returns, in one equation: nothing when no entry is on
    the network; otherwise the version of the last such entry and the
    property names of all of them, in order. *)
Lemma getActiveVersionAndProperties_eq (policy : Policy) (network : string) :
  getActiveVersionAndProperties policy network
  = match last (entries_on network policy) with
    | None => None
    | Some a =>
        Some {| TFA_PolicyID := PolicyID policy;
                TFA_Version := entry_version a;
                TFA_Properties := entry_property <$> entries_on network policy |}
    end.
Proof.
  unfold getActiveVersionAndProperties, entries_on.
  rewrite fold_activation_step. cbn [fst snd].
  destruct (filter (λ a, Activation_Network a = network) (Activations policy))
    as [|b l] eqn:Hf; [reflexivity|].
  destruct (last (b :: l)) as [a|] eqn:Hlast; [reflexivity|].
  apply last_None in Hlast. discriminate.
Qed.

(** C4, as the code has it.  For a policy with at least one entry on the
    network, the entries of that network are folded into one record; its
    Version is the version of the last of them in history order, and its
    Properties are the property names of all of them, one per entry, so that
    a name is listed exactly when some entry of the network carries it. *)
Theorem getActiveVersionAndProperties_folds (policy : Policy) (network : string) :
  entries_on network policy ≠ [] →
  ∃ latest : PolicyActivation,
    last (entries_on network policy) = Some latest ∧
    getActiveVersionAndProperties policy network
    = Some {| TFA_PolicyID := PolicyID policy;
              TFA_Version := entry_version latest;
              TFA_Properties := entry_property <$> entries_on network policy |} ∧
    ∀ property : string,
      property ∈ entry_property <$> entries_on network policy
      ↔ ∃ a, a ∈ Activations policy ∧ Activation_Network a = network
             ∧ entry_property a = property.
Proof.
  intros Hne. rewrite getActiveVersionAndProperties_eq.
  destruct (last (entries_on network policy)) as [a|] eqn:Hlast.
  - exists a. split; [reflexivity|]. split; [reflexivity|].
    intros property. rewrite list_elem_of_fmap. unfold entries_on.
    split.
    + intros (b & -> & Hb). apply list_elem_of_filter in Hb as [Hnet Hb].
      exists b. split; [exact Hb | split; [exact Hnet | reflexivity]].
    + intros (b & Hb & Hnet & <-). exists b. split; [reflexivity|].
      apply list_elem_of_filter. by split.
  - apply last_None in Hlast. contradiction.
Qed.

Lemma getActiveVersionAndProperties_rolled_back :
  ∃ latest : PolicyActivation,
    last (entries_on "staging" rolled_back_policy) = Some latest ∧
    getActiveVersionAndProperties rolled_back_policy "staging"
    = Some {| TFA_PolicyID := 2;
              TFA_Version := entry_version latest;
              TFA_Properties := entry_property <$> entries_on "staging" rolled_back_policy |} ∧
    ∀ property : string,
      property ∈ entry_property <$> entries_on "staging" rolled_back_policy
      ↔ ∃ a, a ∈ Activations rolled_back_policy ∧ Activation_Network a = "staging"
             ∧ entry_property a = property.
Proof.
  apply (getActiveVersionAndProperties_folds rolled_back_policy "staging").
  vm_compute. discriminate.
Defined.

(** The version of the folded record is not the maximum: with version 2
    activated on staging before version 1, the record carries version 1. *)
Lemma active_version_not_the_maximum :
  entries_on "staging" rolled_back_policy
    = [activation "staging" 2 "prp_0"; activation "staging" 1 "prp_1"] ∧
  getActiveVersionAndProperties rolled_back_policy "staging"
    = Some {| TFA_PolicyID := 2; TFA_Version := 1; TFA_Properties := ["prp_0"; "prp_1"] |} ∧
  ¬ (∀ a, a ∈ entries_on "staging" rolled_back_policy → entry_version a ≤ 1).
Proof.
  split; [reflexivity|]. split; [reflexivity|].
  intros Hmax. specialize (Hmax (activation "staging" 2 "prp_0")).
  assert (entry_version (activation "staging" 2 "prp_0") ≤ 1) as Hle.
  { apply Hmax.
    change (entries_on "staging" rolled_back_policy)
      with [activation "staging" 2 "prp_0"; activation "staging" 1 "prp_1"].
    apply elem_of_cons. by left. }
  vm_compute in Hle. by apply Hle.
Qed.

(** ** Exporting a policy *)

Lemma processed_app (l1 l2 : list Call) : processed (l1 ++ l2) = processed l1 ++ processed l2.
Proof. unfold processed. apply omap_app. Qed.

(** A computation is quiet when it does not call the template processor. *)
Lemma quiet_bind {A B : Type} (m : M A) (k : A → M B) :
  processed m.1 = [] → (∀ a, processed (k a).1 = []) → processed (m ≫= k).1 = [].
Proof.
  intros Hm Hk. unfold mbind, M_bind. destruct m as [calls [a|e|]]; cbn [fst snd] in *.
  - rewrite processed_app, Hm, Hk. reflexivity.
  - exact Hm.
  - exact Hm.
Qed.

Lemma quiet_wrapping {A : Type} (s : sentinel) (m : M A) :
  processed m.1 = [] → processed (wrapping s m).1 = [].
Proof. unfold wrapping. destruct m as [calls [a|e|]]; intros H; exact H. Qed.

Lemma findPolicyByName_loop_processed (name : string) (client : Cloudlets) (pageSize : Z)
    (fuel : nat) :
  ∀ offset, processed (findPolicyByName_loop fuel name client pageSize offset).1 = [].
Proof.
  induction fuel as [|fuel IH]; intros offset; [reflexivity|].
  cbn [findPolicyByName_loop]. apply quiet_bind; [reflexivity|].
  intros policies. destruct (find (name_is name) policies); [reflexivity|].
  destruct (len policies <? pageSize); [reflexivity | apply IH].
Qed.

Lemma findPolicyByName_processed (fuel : nat) (name : string) (client : Cloudlets) :
  processed (findPolicyByName fuel name client).1 = [].
Proof. apply findPolicyByName_loop_processed. Qed.

Lemma getLatestPolicyVersion_processed (fuel : nat) (policyID : Z) (client : Cloudlets) :
  processed (getLatestPolicyVersion fuel policyID client).1 = [].
Proof.
  unfold getLatestPolicyVersion. apply quiet_bind; [|reflexivity].
  generalize 0 at 1. generalize 0. induction fuel as [|fuel IH]; intros offset version;
    [reflexivity|].
  cbn [getLatestPolicyVersion_loop]. apply quiet_bind; [reflexivity|].
  intros versions. destruct (len versions =? 0); [reflexivity|].
  destruct (len versions <? 1000); [reflexivity | apply IH].
Qed.

Lemma getLoadBalancers_processed (client : Cloudlets) (originIDs : list string) :
  processed (getLoadBalancers client originIDs).1 = [].
Proof.
  unfold getLoadBalancers. generalize (@nil LoadBalancerVersion).
  induction originIDs as [|originID originIDs IH]; intros loadBalancers; [reflexivity|].
  cbn [getLoadBalancers_loop]. apply quiet_bind; [reflexivity|].
  intros versions. destruct (_ >? 0); apply IH.
Qed.

Lemma getLoadBalancerActivations_processed (client : Cloudlets) (originIDs : list string) :
  processed (getLoadBalancerActivations client originIDs).1 = [].
Proof.
  unfold getLoadBalancerActivations. generalize (@nil LoadBalancerActivation).
  induction originIDs as [|originID originIDs IH]; intros activations; [reflexivity|].
  cbn [getLoadBalancerActivations_loop].
  apply quiet_bind; [apply quiet_bind; [reflexivity | intros; reflexivity]|].
  intros first. apply quiet_bind; [apply quiet_bind; [reflexivity | intros; reflexivity]|].
  intros second. apply IH.
Qed.

Lemma loadBalancerData_processed (order : MapRange) (client : Cloudlets) (cloudletCode : string)
    (rules : list MatchRule) :
  processed (loadBalancerData order client cloudletCode rules).1 = [].
Proof.
  unfold loadBalancerData. destruct (bool_decide (cloudletCode = "ALB")); [|reflexivity].
  apply quiet_bind; [apply quiet_wrapping; reflexivity|]. intros originIDs.
  apply quiet_bind; [apply quiet_wrapping, getLoadBalancers_processed|]. intros loadBalancers.
  apply quiet_bind; [apply quiet_wrapping, getLoadBalancerActivations_processed|].
  intros; reflexivity.
Qed.

Lemma supportedCloudlets_elem (code : string) :
  code ∈ supportedCloudlets ↔ code ∈ ["ALB"; "AP"; "AS"; "CD"; "ER"; "FR"; "IG"; "VP"].
Proof. unfold supportedCloudlets. apply elem_of_list_to_set. Qed.

Lemma policyActivations_staging (policy : Policy) :
  policyActivations policy !! "staging"
  = getActiveVersionAndProperties policy PolicyActivationNetworkStaging.
Proof.
  unfold policyActivations.
  destruct (getActiveVersionAndProperties policy PolicyActivationNetworkStaging),
           (getActiveVersionAndProperties policy PolicyActivationNetworkProduction);
    by simplify_map_eq.
Qed.

Lemma policyActivations_prod (policy : Policy) :
  policyActivations policy !! "prod"
  = getActiveVersionAndProperties policy PolicyActivationNetworkProduction.
Proof.
  unfold policyActivations.
  destruct (getActiveVersionAndProperties policy PolicyActivationNetworkStaging),
           (getActiveVersionAndProperties policy PolicyActivationNetworkProduction);
    by simplify_map_eq.
Qed.

Lemma policyActivations_other (policy : Policy) (key : string) :
  key ≠ "staging" → key ≠ "prod" → policyActivations policy !! key = None.
Proof.
  intros Hs Hp. unfold policyActivations.
  destruct (getActiveVersionAndProperties policy PolicyActivationNetworkStaging),
           (getActiveVersionAndProperties policy PolicyActivationNetworkProduction);
    by simplify_map_eq.
Qed.

(** A run of [createPolicy] whose fetches succeed: the calls of the three
    fetching steps, then one call of the template processor, whose answer is
    the result. *)
Lemma createPolicy_fetched (order : MapRange) (fuel : nat) (policyName section : string)
    (client : Cloudlets) (templateProcessor : TemplateProcessor)
    (policy : Policy) (policyVersion : PolicyVersion)
    (lb : list LoadBalancerVersion * list LoadBalancerActivation) :
  (findPolicyByName fuel policyName client).2 = Ret policy →
  CloudletCode policy ∈ supportedCloudlets →
  (getLatestPolicyVersion fuel (PolicyID policy) client).2 = Ret policyVersion →
  (loadBalancerData order client (CloudletCode policy) (PV_MatchRules policyVersion)).2 = Ret lb →
  let data :=
    {| TF_Section := section;
       TF_Name := Name policy;
       TF_CloudletCode := CloudletCode policy;
       TF_GroupID := GroupID policy;
       TF_Description := PV_Description policyVersion;
       TF_MatchRuleFormat := PV_MatchRuleFormat policyVersion;
       TF_MatchRules := PV_MatchRules policyVersion;
       TF_PolicyActivations := policyActivations policy;
       TF_LoadBalancers := lb.1;
       TF_LoadBalancerActivations := lb.2 |} in
  createPolicy order fuel policyName section client templateProcessor
  = ((findPolicyByName fuel policyName client).1
       ++ (getLatestPolicyVersion fuel (PolicyID policy) client).1
       ++ (loadBalancerData order client (CloudletCode policy) (PV_MatchRules policyVersion)).1
       ++ [CallProcessTemplates data],
     yield (templateProcessor data)).
Proof.
  intros Hfind Hcode Hversion Hlb data. unfold createPolicy.
  rewrite (wrapping_ret _ _ _ Hfind), (bind_ret_run _ _ _ Hfind).
  rewrite bool_decide_eq_false_2 by (intros Hn; exact (Hn Hcode)).
  rewrite (wrapping_ret _ _ _ Hversion), (bind_ret_run _ _ _ Hversion).
  rewrite (bind_ret_run _ _ _ Hlb).
  reflexivity.
Qed.

(** C5. The aggregator returns no record when no entry is on the network, and
    one record listing the property names of all entries of the network when
    there is one.  In [createPolicy], once the policy and its latest version
    are fetched, the map [PolicyActivations] given to the template processor
    has under "staging" and "prod" exactly what the aggregator returned, and
    no other key: a network without entries is left out, and the run goes on
    to the template processor, whose answer is the result. *)
Theorem activations_one_record_per_network (order : MapRange) (fuel : nat)
    (policyName section : string) (client : Cloudlets) (templateProcessor : TemplateProcessor)
    (policy : Policy) (policyVersion : PolicyVersion)
    (lb : list LoadBalancerVersion * list LoadBalancerActivation) (network : string) :
  (entries_on network policy = [] → getActiveVersionAndProperties policy network = None) ∧
  (entries_on network policy ≠ [] →
   ∃ record, getActiveVersionAndProperties policy network = Some record
             ∧ TFA_Properties record = entry_property <$> entries_on network policy) ∧
  ((findPolicyByName fuel policyName client).2 = Ret policy →
   CloudletCode policy ∈ supportedCloudlets →
   (getLatestPolicyVersion fuel (PolicyID policy) client).2 = Ret policyVersion →
   (loadBalancerData order client (CloudletCode policy) (PV_MatchRules policyVersion)).2 = Ret lb →
   ∃ data before,
     createPolicy order fuel policyName section client templateProcessor
     = (before ++ [CallProcessTemplates data], yield (templateProcessor data)) ∧
     processed before = [] ∧
     TF_PolicyActivations data !! "staging"
       = getActiveVersionAndProperties policy PolicyActivationNetworkStaging ∧
     TF_PolicyActivations data !! "prod"
       = getActiveVersionAndProperties policy PolicyActivationNetworkProduction ∧
     ∀ key, key ≠ "staging" → key ≠ "prod" → TF_PolicyActivations data !! key = None).
Proof.
  split; [|split].
  - intros Hnone. rewrite getActiveVersionAndProperties_eq, Hnone. reflexivity.
  - intros Hsome. rewrite getActiveVersionAndProperties_eq.
    destruct (last (entries_on network policy)) as [a|] eqn:Hlast.
    + eexists. split; reflexivity.
    + apply last_None in Hlast. contradiction.
  - intros Hfind Hcode Hversion Hlb.
    eexists _, _. split; [|split; [|split; [|split]]].
    + rewrite (createPolicy_fetched order fuel policyName section client templateProcessor
                 policy policyVersion lb Hfind Hcode Hversion Hlb).
      rewrite !app_assoc. reflexivity.
    + rewrite !processed_app, findPolicyByName_processed, getLatestPolicyVersion_processed,
        loadBalancerData_processed. reflexivity.
    + apply policyActivations_staging.
    + apply policyActivations_prod.
    + apply policyActivations_other.
Qed.

Lemma createPolicy_staging_only :
  getActiveVersionAndProperties staging_only_policy "prod" = None ∧
  ∃ data before,
    createPolicy elements 2 "test_policy" "test_section"
      (single_policy_client staging_only_policy) accepting
    = (before ++ [CallProcessTemplates data], Ret ()) ∧
    TF_PolicyActivations data !! "staging"
    = Some {| TFA_PolicyID := 2; TFA_Version := 2;
              TFA_Properties := ["test_prp_1"; "test_prp_2"] |} ∧
    TF_PolicyActivations data !! "prod" = None.
Proof.
  destruct (activations_one_record_per_network elements 2 "test_policy" "test_section"
              (single_policy_client staging_only_policy) accepting staging_only_policy
              (exported_version 2 2) ([], []) "prod") as (Hnone & _ & Hrun).
  split; [apply Hnone; reflexivity|].
  destruct Hrun as (data & before & Hrun & _ & Hstaging & Hprod & _).
  - reflexivity.
  - apply supportedCloudlets_elem, list_elem_of_In. simpl. tauto.
  - reflexivity.
  - reflexivity.
  - exists data, before. split; [exact Hrun|]. split; [exact Hstaging | exact Hprod].
Defined.

(** C8. When the policy found by name has a cloudlet code outside
    ALB, AP, AS, CD, ER, FR, IG, VP, [createPolicy] makes no call beyond those
    of the finder, in particular none to the template processor, and returns
    an error that wraps [ErrCloudletTypeNotSupported] and whose text ends
    with the unsupported code. *)
Theorem createPolicy_unsupported_cloudlet (order : MapRange) (fuel : nat)
    (policyName section : string) (client : Cloudlets) (templateProcessor : TemplateProcessor)
    (policy : Policy) :
  (findPolicyByName fuel policyName client).2 = Ret policy →
  CloudletCode policy ∉ ["ALB"; "AP"; "AS"; "CD"; "ER"; "FR"; "IG"; "VP"] →
  ∃ err : error,
    createPolicy order fuel policyName section client templateProcessor
    = ((findPolicyByName fuel policyName client).1, Fail err) ∧
    processed (createPolicy order fuel policyName section client templateProcessor).1 = [] ∧
    errors_Is err (Named ErrCloudletTypeNotSupported) = true ∧
    err ≠ Named ErrCloudletTypeNotSupported ∧
    Error err = "cloudlet type not supported: " +:+ CloudletCode policy.
Proof.
  intros Hfind Hcode.
  exists (Wrapf (Named ErrCloudletTypeNotSupported) (CloudletCode policy)).
  assert (createPolicy order fuel policyName section client templateProcessor
          = ((findPolicyByName fuel policyName client).1,
             Fail (Wrapf (Named ErrCloudletTypeNotSupported) (CloudletCode policy)))) as Hrun.
  { unfold createPolicy.
    rewrite (wrapping_ret _ _ _ Hfind), (bind_ret_run _ _ _ Hfind).
    rewrite bool_decide_eq_true_2 by (by rewrite supportedCloudlets_elem).
    cbn [fail fst snd]. by rewrite app_nil_r. }
  split; [exact Hrun|]. split; [|split; [|split]].
  - rewrite Hrun. apply findPolicyByName_processed.
  - reflexivity.
  - discriminate.
  - reflexivity.
Qed.

Lemma createPolicy_unsupported_ABC :
  ∃ err : error,
    createPolicy elements 1 "test_policy" "test_section"
      (single_policy_client unsupported_policy) accepting
    = ((findPolicyByName 1 "test_policy" (single_policy_client unsupported_policy)).1, Fail err) ∧
    processed (createPolicy elements 1 "test_policy" "test_section"
                 (single_policy_client unsupported_policy) accepting).1 = [] ∧
    errors_Is err (Named ErrCloudletTypeNotSupported) = true ∧
    err ≠ Named ErrCloudletTypeNotSupported ∧
    Error err = "cloudlet type not supported: ABC".
Proof.
  apply (createPolicy_unsupported_cloudlet elements 1 "test_policy" "test_section"
           (single_policy_client unsupported_policy) accepting unsupported_policy).
  - reflexivity.
  - rewrite list_elem_of_In. simpl. intros H.
    repeat (destruct H as [H|H]; [discriminate H|]). exact H.
Defined.

(** ** [sort.Slice] keeps the elements and ends *)

Lemma replace_permutation {A : Type} (l : list A) :
  ∀ (k : nat) (x y : A), l !! k = Some y → y :: <[k := x]> l ≡ₚ x :: l.
Proof.
  induction l as [|b l IH]; intros k x y Hk; [inversion Hk|].
  destruct k as [|k]; cbn in *.
  - injection Hk as ->. apply perm_swap.
  - rewrite perm_swap. rewrite (IH k x y Hk). apply perm_swap.
Qed.

Lemma swap_permutation {A : Type} (data : list A) : ∀ i j, swap data i j ≡ₚ data.
Proof.
  unfold swap. induction data as [|a data IH]; intros i j; [by destruct i, j|].
  destruct i as [|i], j as [|j]; cbn [lookup list_lookup].
  - reflexivity.
  - destruct (data !! j) as [y|] eqn:Hj; [|reflexivity]. cbn.
    by apply replace_permutation.
  - destruct (data !! i) as [x|] eqn:Hi; [|reflexivity]. cbn.
    by apply replace_permutation.
  - specialize (IH i j). destruct (data !! i), (data !! j); try reflexivity.
    cbn. by constructor.
Qed.

Lemma fold_left_permutation {A B : Type} (f : list A → B → list A) (indices : list B) :
  (∀ data i, f data i ≡ₚ data) → ∀ data, fold_left f indices data ≡ₚ data.
Proof.
  intros Hf. induction indices as [|i indices IH]; intros data; [reflexivity|].
  cbn [fold_left]. by rewrite IH.
Qed.

Section PdqsortFacts.
Context {A : Type}.
Variable less : list A → nat → nat → bool.

Lemma insert_left_permutation (a j : nat) :
  ∀ data, insert_left less a j data ≡ₚ data.
Proof.
  induction j as [|j IH]; intros data; [reflexivity|].
  cbn [insert_left]. destruct (_ && _); [|reflexivity].
  rewrite IH. apply swap_permutation.
Qed.

Lemma insertionSort_func_permutation (data : list A) (a b : nat) :
  insertionSort_func less data a b ≡ₚ data.
Proof.
  apply fold_left_permutation. intros d i. apply insert_left_permutation.
Qed.

Lemma siftDown_func_permutation (fuel : nat) :
  ∀ data root hi first, siftDown_func less fuel data root hi first ≡ₚ data.
Proof.
  induction fuel as [|fuel IH]; intros data root hi first; [reflexivity|].
  cbn [siftDown_func]. cbv zeta. destruct (hi <=? _)%nat; [reflexivity|].
  destruct (less data _ _); [|reflexivity].
  rewrite IH. apply swap_permutation.
Qed.

Lemma heapSort_func_permutation (data : list A) (a b : nat) :
  heapSort_func less data a b ≡ₚ data.
Proof.
  unfold heapSort_func. cbv zeta.
  rewrite fold_left_permutation.
  - apply fold_left_permutation. intros d i. apply siftDown_func_permutation.
  - intros d i. rewrite siftDown_func_permutation. apply swap_permutation.
Qed.

Lemma reverseRange_loop_permutation (fuel : nat) :
  ∀ (data : list A) i j, reverseRange_loop fuel data i j ≡ₚ data.
Proof.
  induction fuel as [|fuel IH]; intros data i j; [reflexivity|].
  cbn [reverseRange_loop]. destruct (i <? j)%nat; [|reflexivity].
  rewrite IH. apply swap_permutation.
Qed.

Lemma reverseRange_func_permutation (data : list A) (a b : nat) :
  reverseRange_func data a b ≡ₚ data.
Proof. apply reverseRange_loop_permutation. Qed.

Lemma shift_left_permutation (j : nat) : ∀ data, shift_left less j data ≡ₚ data.
Proof.
  induction j as [|j IH]; intros data; [reflexivity|].
  cbn [shift_left]. destruct (less data _ _); [|reflexivity].
  rewrite IH. apply swap_permutation.
Qed.

Lemma shift_right_permutation (fuel : nat) :
  ∀ j b data, shift_right less fuel j b data ≡ₚ data.
Proof.
  induction fuel as [|fuel IH]; intros j b data; [reflexivity|].
  cbn [shift_right]. destruct (_ && _); [|reflexivity].
  rewrite IH. apply swap_permutation.
Qed.

Lemma partialInsertionSort_func_permutation (data : list A) (a b : nat) :
  (partialInsertionSort_func less data a b).1 ≡ₚ data.
Proof.
  unfold partialInsertionSort_func. generalize (a + 1)%nat. generalize 5%nat.
  intros steps. revert data.
  induction steps as [|steps IH]; intros data i; [reflexivity|].
  cbn [partialInsertionSort_loop]. cbv zeta.
  destruct (_ =? b)%nat; [reflexivity|]. destruct (b - a <? 50)%nat; [reflexivity|].
  rewrite IH.
  destruct (2 <=? b - _)%nat; rewrite ?shift_right_permutation;
    (destruct (2 <=? _ - a)%nat; rewrite ?shift_left_permutation; apply swap_permutation).
Qed.

Lemma partitionEqual_loop_permutation (fuel : nat) :
  ∀ data a i j, (partitionEqual_loop less fuel data a i j).1 ≡ₚ data.
Proof.
  induction fuel as [|fuel IH]; intros data a i j; [reflexivity|].
  cbn [partitionEqual_loop]. cbv zeta. destruct (_ <? _)%nat; [reflexivity|].
  rewrite IH. apply swap_permutation.
Qed.

Lemma partitionEqual_func_permutation (data : list A) (a b pivot : nat) :
  (partitionEqual_func less data a b pivot).1 ≡ₚ data.
Proof.
  unfold partitionEqual_func. rewrite partitionEqual_loop_permutation.
  apply swap_permutation.
Qed.

Lemma partition_loop_permutation (fuel : nat) :
  ∀ data a i j, (partition_loop less fuel data a i j).1 ≡ₚ data.
Proof.
  induction fuel as [|fuel IH]; intros data a i j; [reflexivity|].
  cbn [partition_loop]. cbv zeta. destruct (_ <? _)%nat; [reflexivity|].
  rewrite IH. apply swap_permutation.
Qed.

Lemma partition_func_permutation (data : list A) (a b pivot : nat) :
  (partition_func less data a b pivot).1.1 ≡ₚ data.
Proof.
  unfold partition_func. cbv zeta. destruct (_ <? _)%nat; cbn [fst].
  - by rewrite !swap_permutation.
  - by rewrite swap_permutation, partition_loop_permutation, !swap_permutation.
Qed.

Lemma breakPatterns_func_permutation (data : list A) (a b : nat) :
  breakPatterns_func data a b ≡ₚ data.
Proof.
  unfold breakPatterns_func. cbv zeta. destruct (8 <=? _)%nat; [|reflexivity].
  by rewrite !swap_permutation.
Qed.

Lemma pdqsort_func_permutation (fuel : nat) :
  ∀ data a b limit wasBalanced wasPartitioned sorted,
    pdqsort_func less fuel data a b limit wasBalanced wasPartitioned = Some sorted →
    sorted ≡ₚ data.
Proof.
  induction fuel as [|fuel IH]; intros data a b limit wb wp sorted Hrun; [discriminate|].
  cbn [pdqsort_func] in Hrun. cbv zeta in Hrun.
  destruct (b - a <=? 12)%nat.
  { injection Hrun as <-. apply insertionSort_func_permutation. }
  destruct (limit =? 0)%nat.
  { injection Hrun as <-. apply heapSort_func_permutation. }
  set (d1 := if wb then data else breakPatterns_func data a b) in *.
  assert (d1 ≡ₚ data) as H1.
  { subst d1. destruct wb; [reflexivity | apply breakPatterns_func_permutation]. }
  clearbody d1.
  destruct (choosePivot_func less d1 a b) as [pivot hint]. cbn [fst snd] in Hrun.
  set (d2 := if match hint with decreasingHint => true | _ => false end
             then reverseRange_func d1 a b else d1) in *.
  assert (d2 ≡ₚ data) as H2.
  { subst d2. destruct hint; rewrite ?reverseRange_func_permutation; exact H1. }
  clearbody d2.
  set (partial := if wb && wp && match hint with unknownHint => false | _ => true end
                  then partialInsertionSort_func less d2 a b else (d2, false)) in *.
  assert (partial.1 ≡ₚ data) as H3.
  { subst partial. destruct (_ && _); [|exact H2].
    rewrite partialInsertionSort_func_permutation. exact H2. }
  clearbody partial.
  destruct partial.2.
  { injection Hrun as <-. exact H3. }
  destruct (_ && _).
  { apply IH in Hrun. rewrite Hrun, partitionEqual_func_permutation. exact H3. }
  match type of Hrun with
  | context [partition_func less ?d ?a ?b ?p] =>
      pose proof (partition_func_permutation d a b p) as H4;
        destruct (partition_func less d a b p) as [[d4 mid] already]
  end.
  cbn [fst snd] in *.
  destruct (_ <? _)%nat;
    (match type of Hrun with
     | (x ← ?m; _) = Some _ => destruct m as [d5|] eqn:H5; [|discriminate]
     end;
     cbn in Hrun; apply IH in Hrun; apply IH in H5;
     by rewrite Hrun, H5, H4).
Qed.

Lemma scan_right_ge (fuel : nat) (cond : nat → bool) :
  ∀ i j, (i ≤ scan_right fuel cond i j)%nat.
Proof.
  induction fuel as [|fuel IH]; intros i j; [reflexivity|].
  cbn [scan_right]. destruct (_ && _); [|reflexivity].
  specialize (IH (S i) j). lia.
Qed.

Lemma scan_left_le (fuel : nat) (cond : nat → bool) :
  ∀ i j, (scan_left fuel cond i j ≤ j)%nat.
Proof.
  induction fuel as [|fuel IH]; intros i j; [reflexivity|].
  cbn [scan_left]. destruct (_ && _); [|reflexivity].
  specialize (IH i (j - 1)%nat). lia.
Qed.

Lemma scan_left_ge (fuel : nat) (cond : nat → bool) (lo : nat) :
  ∀ i j, (lo ≤ j)%nat → (lo + 1 ≤ i)%nat → (lo ≤ scan_left fuel cond i j)%nat.
Proof.
  induction fuel as [|fuel IH]; intros i j Hj Hi; [exact Hj|].
  cbn [scan_left]. destruct (Nat.leb_spec i j) as [Hij|Hij]; cbn [andb]; [|exact Hj].
  destruct (cond j); [|exact Hj]. apply IH; lia.
Qed.

Lemma partitionEqual_loop_ge (fuel : nat) :
  ∀ data a i j, (i ≤ (partitionEqual_loop less fuel data a i j).2)%nat.
Proof.
  induction fuel as [|fuel IH]; intros data a i j; [reflexivity|].
  cbn [partitionEqual_loop]. cbv zeta.
  pose proof (scan_right_ge (S j - i) (λ i, negb (less data a i)) i j) as Hi.
  destruct (_ <? _)%nat; [exact Hi|].
  etransitivity; [|apply IH]. lia.
Qed.

Lemma partition_loop_bounds (fuel : nat) (lo : nat) :
  ∀ data a i j, (lo ≤ j)%nat → (lo + 1 ≤ i)%nat →
    (lo ≤ (partition_loop less fuel data a i j).2 ≤ j)%nat.
Proof.
  induction fuel as [|fuel IH]; intros data a i j Hj Hi; [cbn; lia|].
  cbn [partition_loop]. cbv zeta.
  pose proof (scan_right_ge (S j - i) (λ i, less data i a) i j) as Hi2.
  set (i2 := scan_right (S j - i) (λ i, less data i a) i j) in *.
  pose proof (scan_left_le (S j - i2) (λ j, negb (less data j a)) i2 j) as Hj2.
  pose proof (scan_left_ge (S j - i2) (λ j, negb (less data j a)) lo i2 j Hj
                ltac:(lia)) as Hj2'.
  set (j2 := scan_left (S j - i2) (λ j, negb (less data j a)) i2 j) in *.
  destruct (Nat.ltb_spec j2 i2) as [Hlt|Hge]; cbn [snd]; [lia|].
  specialize (IH (swap data i2 j2) a (S i2) (j2 - 1)%nat ltac:(lia) ltac:(lia)). lia.
Qed.

Lemma partition_func_bounds (data : list A) (a b pivot : nat) :
  (a < b)%nat → (a ≤ (partition_func less data a b pivot).1.2 ≤ b - 1)%nat.
Proof.
  intros Hab. unfold partition_func. cbv zeta.
  set (d := swap data a pivot).
  pose proof (scan_right_ge (b - (a + 1)) (λ i, less d i a) (a + 1) (b - 1)) as Hi.
  set (i := scan_right (b - (a + 1)) (λ i, less d i a) (a + 1) (b - 1)) in *.
  pose proof (scan_left_le (b - i) (λ j, negb (less d j a)) i (b - 1)) as Hj.
  pose proof (scan_left_ge (b - i) (λ j, negb (less d j a)) a i (b - 1)
                ltac:(lia) ltac:(lia)) as Hj'.
  set (j := scan_left (b - i) (λ j, negb (less d j a)) i (b - 1)) in *.
  destruct (Nat.ltb_spec j i) as [Hlt|Hge]; cbn [fst snd]; [lia|].
  pose proof (partition_loop_bounds (b - a) a (swap d i j) a (S i) (j - 1)%nat
                ltac:(lia) ltac:(lia)). lia.
Qed.

Lemma partitionEqual_func_ge (data : list A) (a b pivot : nat) :
  (a + 1 ≤ (partitionEqual_func less data a b pivot).2)%nat.
Proof. unfold partitionEqual_func. apply partitionEqual_loop_ge. Qed.

(** The fuel [sort.Slice] is given, one more than the length, is never used
    up. *)
Lemma pdqsort_func_returns (fuel : nat) :
  ∀ data a b limit wasBalanced wasPartitioned,
    (b - a < fuel)%nat →
    is_Some (pdqsort_func less fuel data a b limit wasBalanced wasPartitioned).
Proof.
  induction fuel as [|fuel IH]; intros data a b limit wb wp Hfuel; [lia|].
  cbn [pdqsort_func]. cbv zeta.
  destruct (Nat.leb_spec (b - a) 12) as [|Hlong]; [by eexists|].
  destruct (limit =? 0)%nat; [by eexists|].
  set (d1 := if wb then data else breakPatterns_func data a b). clearbody d1.
  destruct (choosePivot_func less d1 a b) as [pivot hint]. cbn [fst snd].
  set (d2 := if match hint with decreasingHint => true | _ => false end
             then reverseRange_func d1 a b else d1). clearbody d2.
  set (partial := if wb && wp && match hint with unknownHint => false | _ => true end
                  then partialInsertionSort_func less d2 a b else (d2, false)).
  clearbody partial.
  destruct partial.2; [by eexists|].
  destruct (_ && _).
  { apply IH.
    match goal with
    | |- context [partitionEqual_func less ?d a b ?p] =>
        pose proof (partitionEqual_func_ge d a b p)
    end. lia. }
  match goal with
  | |- context [partition_func less ?d a b ?p] =>
      pose proof (partition_func_bounds d a b p ltac:(lia)) as Hmid;
        destruct (partition_func less d a b p) as [[d4 mid] already]
  end.
  cbn [fst snd] in *.
  destruct (_ <? _)%nat.
  - match goal with
    | |- context [pdqsort_func less fuel d4 a mid ?l true true] =>
        destruct (IH d4 a mid l true true ltac:(lia)) as [d5 ->]
    end.
    cbn. apply IH. lia.
  - match goal with
    | |- context [pdqsort_func less fuel d4 (mid + 1)%nat b ?l true true] =>
        destruct (IH d4 (mid + 1)%nat b l true true ltac:(lia)) as [d5 ->]
    end.
    cbn. apply IH. lia.
Qed.
End PdqsortFacts.

Lemma sort_Slice_by_permutation {A : Type} (data : list A)
    (less : list A → nat → nat → bool) :
  sort_Slice_by data less ≡ₚ data.
Proof.
  unfold sort_Slice_by.
  destruct (pdqsort_func _ _ _ _ _ _ _ _) as [sorted|] eqn:Hrun; [|reflexivity].
  by apply pdqsort_func_permutation in Hrun.
Qed.

Lemma sort_Slice_by_run {A : Type} (data : list A) (less : list A → nat → nat → bool) :
  pdqsort_func less (S (length data)) data 0 (length data) (bits_Len (length data)) true true
  = Some (sort_Slice_by data less).
Proof.
  unfold sort_Slice_by.
  destruct (pdqsort_func_returns less (S (length data)) data 0 (length data)
              (bits_Len (length data)) true true ltac:(lia)) as [sorted ->].
  reflexivity.
Qed.

Lemma sort_Slice_permutation {A : Type} (data : list A) (less : nat → nat → bool) :
  sort_Slice data less ≡ₚ data.
Proof. apply sort_Slice_by_permutation. Qed.

(** Up to 12 elements [sort.Slice] is the insertion sort. *)
Lemma sort_Slice_insertion {A : Type} (data : list A) (less : nat → nat → bool) :
  (length data ≤ 12)%nat →
  sort_Slice data less = insertionSort_func (λ _, less) data 0 (length data).
Proof.
  intros Hshort. unfold sort_Slice, sort_Slice_by. cbn [pdqsort_func].
  rewrite Nat.sub_0_r. by destruct (Nat.leb_spec (length data) 12); [|lia].
Qed.

Lemma sort_Slice_short {A : Type} (data : list A) (less : nat → nat → bool) :
  (length data ≤ 1)%nat → sort_Slice data less = data.
Proof.
  intros Hlen. rewrite sort_Slice_insertion by lia. unfold insertionSort_func.
  replace (length data - (0 + 1))%nat with 0%nat by lia. reflexivity.
Qed.

(** Beyond the insertion sort the model still sorts: a slice of 21 numbers,
    64 numbers in decreasing order, 100 numbers in a scattered order. *)
Example sort_Slice_by_sorts :
  sort_Slice_by [5; 3; 9; 1; 7; 2; 8; 6; 4; 0; 12; 11; 10; 15; 14; 13; 20; 19; 18; 17; 16]
    int_less
  = Z.of_nat <$> seq 0 21 ∧
  sort_Slice_by (Z.of_nat <$> reverse (seq 0 64)) int_less = Z.of_nat <$> seq 0 64 ∧
  sort_Slice_by ((λ n, Z.of_nat (n * 37 mod 101)) <$> seq 0 100) int_less
  = Z.of_nat <$> (seq 0 64 ++ seq 65 36).
Proof. by vm_compute. Qed.

(** ** The newest activation of a load balancer *)

(** No activation on the network: [nil], and no error. *)
Lemma getApplicationLoadBalancerActivation_none (client : Cloudlets) (originID network : string)
    (activations : list LoadBalancerActivation) :
  ListLoadBalancerActivations client originID = inr activations →
  Forall (λ act, LBA_Network act ≠ network) activations →
  getApplicationLoadBalancerActivation client originID network
  = ([CallListLoadBalancerActivations originID], Ret None).
Proof.
  intros Hlist Hnone. unfold getApplicationLoadBalancerActivation.
  rewrite (bind_invoke_ok _ _ _ _ Hlist). cbn [fst snd mret M_ret].
  replace (filter (λ act, LBA_Network act = network) activations) with (@nil LoadBalancerActivation).
  - reflexivity.
  - symmetry. clear Hlist. induction Hnone as [|act activations Hact _ IH]; [reflexivity|].
    rewrite filter_cons_False by exact Hact. exact IH.
Qed.

(** One activation on the network: that one. *)
Lemma getApplicationLoadBalancerActivation_single (client : Cloudlets) (originID network : string)
    (activations : list LoadBalancerActivation) (act : LoadBalancerActivation) :
  ListLoadBalancerActivations client originID = inr activations →
  filter (λ act, LBA_Network act = network) activations = [act] →
  getApplicationLoadBalancerActivation client originID network
  = ([CallListLoadBalancerActivations originID], Ret (Some act)).
Proof.
  intros Hlist Hone. unfold getApplicationLoadBalancerActivation.
  rewrite (bind_invoke_ok _ _ _ _ Hlist). cbn [fst snd mret M_ret].
  rewrite Hone. reflexivity.
Qed.

Lemma getApplicationLoadBalancerActivation_error (client : Cloudlets) (originID network : string)
    (e : error) :
  ListLoadBalancerActivations client originID = inl e →
  getApplicationLoadBalancerActivation client originID network
  = ([CallListLoadBalancerActivations originID], Fail e).
Proof.
  intros Hlist. unfold getApplicationLoadBalancerActivation.
  rewrite (bind_invoke_err _ _ _ _ Hlist). reflexivity.
Qed.

(** C10. The comparison handed to [sort.Slice] reads [activations], the
    unfiltered list, at the indices of [filteredActivations].  With a staging
    activation listed before two production activations, the production
    activation returned is the older of the two. *)
Theorem getApplicationLoadBalancerActivation_older :
  let older := lb_activation "2021-10-29T00:00:10.000Z" "PRODUCTION" 1 in
  let newer := lb_activation "2021-10-29T00:00:20.000Z" "PRODUCTION" 2 in
  filter (λ act, LBA_Network act = LoadBalancerActivationNetworkProduction) listed_activations
    = [older; newer] ∧
  string_gt (ActivatedDate newer) (ActivatedDate older) = true ∧
  getApplicationLoadBalancerActivation activations_client "test_origin"
    LoadBalancerActivationNetworkProduction
  = ([CallListLoadBalancerActivations "test_origin"], Ret (Some older)).
Proof. cbn zeta. split; [|split]; vm_compute; reflexivity. Qed.

(** ** The order of the load balancers *)

Lemma range_ok_forwards : range_ok forwards.
Proof. intros keys. reflexivity. Qed.

Lemma range_ok_backwards : range_ok backwards.
Proof. intros keys. unfold backwards. apply reverse_Permutation. Qed.

(** X14. Whatever order the runtime picks, the origin IDs are the same up to
    their order. *)
Lemma getOriginIDs_permutation (order1 order2 : MapRange) (rules : list MatchRule)
    (originIDs1 originIDs2 : list string) :
  range_ok order1 → range_ok order2 →
  getOriginIDs order1 rules = inr originIDs1 →
  getOriginIDs order2 rules = inr originIDs2 →
  originIDs1 ≡ₚ originIDs2.
Proof.
  unfold getOriginIDs. intros Hok1 Hok2 H1 H2.
  destruct (collectOriginIDs rules ∅) as [e|keys]; [discriminate|].
  injection H1 as <-. injection H2 as <-.
  rewrite (Hok1 keys), (Hok2 keys). reflexivity.
Qed.

(** C7. Two runs of [createPolicy] against the same API answers, which differ
    only in the order the runtime picks when [getOriginIDs] ranges over its
    map, give the template processor different data: the load balancers come
    in opposite orders. *)
Theorem createPolicy_order_of_load_balancers :
  let run1 := createPolicy forwards 2 "test_policy" "test_section" alb_client accepting in
  let run2 := createPolicy backwards 2 "test_policy" "test_section" alb_client accepting in
  range_ok forwards ∧ range_ok backwards ∧
  run1.2 = Ret () ∧ run2.2 = Ret () ∧
  TF_LoadBalancers <$> processed run1.1 = [[lb_version "origin_a" 2; lb_version "origin_b" 2]] ∧
  TF_LoadBalancers <$> processed run2.1 = [[lb_version "origin_b" 2; lb_version "origin_a" 2]] ∧
  processed run1.1 ≠ processed run2.1.
Proof.
  cbn zeta.
  assert (TF_LoadBalancers <$> processed
            (createPolicy forwards 2 "test_policy" "test_section" alb_client accepting).1
          = [[lb_version "origin_a" 2; lb_version "origin_b" 2]]) as H1
    by (vm_compute; reflexivity).
  assert (TF_LoadBalancers <$> processed
            (createPolicy backwards 2 "test_policy" "test_section" alb_client accepting).1
          = [[lb_version "origin_b" 2; lb_version "origin_a" 2]]) as H2
    by (vm_compute; reflexivity).
  split; [exact range_ok_forwards|]. split; [exact range_ok_backwards|].
  split; [vm_compute; reflexivity|]. split; [vm_compute; reflexivity|].
  split; [exact H1|]. split; [exact H2|].
  intros Heq. rewrite Heq, H2 in H1. discriminate H1.
Qed.

(** ** Looking a resource up in the Terraform state *)

Lemma existsb_resource (rtype name : string) (resources : list TFResource) :
  existsb (λ r, bool_decide (Res_Type r = rtype) && bool_decide (Res_Name r = name)) resources
  = true
  ↔ ∃ r, r ∈ resources ∧ Res_Type r = rtype ∧ Res_Name r = name.
Proof.
  rewrite existsb_exists. split.
  - intros (r & Hin & Hr). apply andb_true_iff in Hr as [Ht Hn].
    apply bool_decide_eq_true in Ht, Hn. exists r.
    split; [by apply list_elem_of_In | by split].
  - intros (r & Hin & Ht & Hn). exists r. split; [by apply list_elem_of_In|].
    apply andb_true_iff. split; by apply bool_decide_eq_true.
Qed.

(** C9. [checkForResource] answers [true] only if the state held in [tfState]
    after the call (cached before it, or just read) has a resource of that
    very type and name; and when no state is cached and reading it fails, the
    answer is plain [false]: the result is a boolean and the error goes no
    further. *)
Theorem checkForResource_true_only_if_present (readTfState : ReadTfState)
    (rtype name tfWorkPath : string) (tfState : option TFState) :
  let run := checkForResource readTfState rtype name tfWorkPath tfState in
  (run.1 = Returned true →
   ∃ st r, run.2 = Some st ∧ r ∈ Resources st ∧ Res_Type r = rtype ∧ Res_Name r = name) ∧
  (tfState = None → ∀ err, (readTfState tfWorkPath).1 = Some err → run.1 = Returned false).
Proof.
  cbn zeta. unfold checkForResource. split.
  - destruct tfState as [st|]; cbn [fst snd].
    + intros Htrue. injection Htrue as Htrue.
      apply existsb_resource in Htrue as (r & Hin & Ht & Hn). by exists st, r.
    + destruct (readTfState tfWorkPath) as [[err|] [st|]]; cbn [fst snd]; try discriminate.
      intros Htrue. injection Htrue as Htrue.
      apply existsb_resource in Htrue as (r & Hin & Ht & Hn). by exists st, r.
  - intros -> err Herr. rewrite Herr. reflexivity.
Qed.

(** The converse for a state that is there: a resource of that type and name
    gives [true]. *)
Lemma checkForResource_present (readTfState : ReadTfState) (rtype name tfWorkPath : string)
    (st : TFState) (r : TFResource) :
  r ∈ Resources st → Res_Type r = rtype → Res_Name r = name →
  checkForResource readTfState rtype name tfWorkPath (Some st) = (Returned true, Some st).
Proof.
  intros Hin Ht Hn. unfold checkForResource. cbn [fst snd].
  replace (existsb _ (Resources st)) with true; [reflexivity|].
  symmetry. apply existsb_resource. by exists r.
Qed.

Lemma checkForResource_zone :
  (∃ st r, (checkForResource readable "akamai_dns_zone" "example_com" "./" None).2 = Some st
           ∧ r ∈ Resources st ∧ Res_Type r = "akamai_dns_zone" ∧ Res_Name r = "example_com") ∧
  (checkForResource unreadable "akamai_dns_zone" "example_com" "./" None).1 = Returned false.
Proof.
  split.
  - apply (proj1 (checkForResource_true_only_if_present readable
                    "akamai_dns_zone" "example_com" "./" None)).
    reflexivity.
  - apply (proj2 (checkForResource_true_only_if_present unreadable
                    "akamai_dns_zone" "example_com" "./" None) eq_refl
             (Errorf "open terraform.tfstate: no such file or directory")).
    reflexivity.
Defined.

(** * Further properties *)

(** ** The finder beyond the first match *)

(** Full pages without the name are read one after the other. *)
Lemma findPolicyByName_loop_skip (client : Cloudlets) (name : string)
    (before : list (list Policy)) :
  Forall (full_without name) before →
  ∀ (i fuel : nat),
    pages_served client i before →
    1000 * Z.of_nat (i + length before) ≤ max_int64 →
    findPolicyByName_loop (length before + fuel) name client 1000 (1000 * Z.of_nat i)
    = (page_calls i (length before)
         ++ (findPolicyByName_loop fuel name client 1000
               (1000 * Z.of_nat (i + length before))).1,
       (findPolicyByName_loop fuel name client 1000
          (1000 * Z.of_nat (i + length before))).2).
Proof.
  induction 1 as [|pg before [Hlen Hpg] _ IH]; intros i fuel Hserved Hmax.
  - cbn [length Nat.add page_calls seq fmap list_fmap app]. rewrite Nat.add_0_r.
    by destruct (findPolicyByName_loop _ _ _ _ _).
  - cbn [length Nat.add]. cbn [length] in Hmax. cbn [findPolicyByName_loop].
    pose proof (Hserved 0%nat _ eq_refl) as H0. rewrite Nat.add_0_r in H0.
    rewrite (bind_invoke_ok _ _ _ _ H0).
    rewrite (find_name_absent name pg Hpg).
    destruct (Z.ltb_spec (len pg) 1000) as [Hlt|_]; [lia|].
    rewrite wrap_int64_small by (unfold max_int64 in *; lia).
    replace (1000 * Z.of_nat i + 1000) with (1000 * Z.of_nat (S i)) by lia.
    rewrite (IH (S i) fuel).
    + replace (S i + length before)%nat with (i + S (length before))%nat by lia.
      reflexivity.
    + intros j q Hq. replace (S i + j)%nat with (i + S j)%nat by lia.
      apply Hserved. exact Hq.
    + replace (S i + length before)%nat with (i + S (length before))%nat by lia.
      exact Hmax.
Qed.

Lemma pages_served_app (client : Cloudlets) (i : nat) (before after : list (list Policy)) :
  pages_served client i (before ++ after) → pages_served client i before.
Proof.
  intros Hserved j pg Hj. apply Hserved. by apply lookup_app_l_Some.
Qed.

Lemma page_calls_snoc (i k : nat) :
  page_calls i (S k)
  = page_calls i k ++ [CallListPolicies (listPoliciesRequest 1000 (1000 * Z.of_nat (i + k)))].
Proof. unfold page_calls. rewrite seq_S, fmap_app. reflexivity. Qed.

(** X1. A policy the finder returns bears the wanted name and stands on a page
    the client returned to one of the finder's requests. *)
Theorem findPolicyByName_returns_named (fuel : nat) (name : string) (client : Cloudlets)
    (p : Policy) :
  (findPolicyByName fuel name client).2 = Ret p →
  Name p = name ∧
  ∃ req pg, CallListPolicies req ∈ (findPolicyByName fuel name client).1
            ∧ ListPolicies client req = inr pg ∧ p ∈ pg.
Proof.
  unfold findPolicyByName. generalize 0. generalize 1000.
  induction fuel as [|fuel IH]; intros pageSize offset; [discriminate|].
  cbn [findPolicyByName_loop].
  destruct (ListPolicies client (listPoliciesRequest pageSize offset)) as [e|pg] eqn:Hpg.
  - rewrite (bind_invoke_err _ _ e _ eq_refl). discriminate.
  - rewrite (bind_invoke_ok _ _ pg _ eq_refl). cbn [fst snd].
    destruct (find (name_is name) pg) as [q|] eqn:Hfind.
    + intros Hret. injection Hret as ->.
      apply find_some in Hfind as [Hin Hname]. apply bool_decide_eq_true in Hname.
      split; [exact Hname|]. exists (listPoliciesRequest pageSize offset), pg.
      split; [apply elem_of_cons; by left|]. split; [exact Hpg | by apply list_elem_of_In].
    + destruct (len pg <? pageSize); [discriminate|].
      intros Hret. destruct (IH _ _ Hret) as (Hname & req & pg' & Hcall & Hreq & Hin).
      split; [exact Hname|]. exists req, pg'.
      split; [apply elem_of_cons; by right|]. by split.
Qed.

Lemma findPolicyByName_returns_named_two_pages :
  Name (named_policy 1234567 "test_policy") = "test_policy" ∧
  ∃ req pg, CallListPolicies req ∈ (findPolicyByName 2 "test_policy" two_page_client).1
            ∧ ListPolicies two_page_client req = inr pg
            ∧ named_policy 1234567 "test_policy" ∈ pg.
Proof.
  apply (findPolicyByName_returns_named 2 "test_policy" two_page_client).
  vm_compute. reflexivity.
Defined.

(** X2. After [k] full pages without the name, a short page without it ends the
    search: [k + 1] requests, then the not-found error built from the name. *)
Theorem findPolicyByName_exhausted (client : Cloudlets) (name : string)
    (before : list (list Policy)) (last_page : list Policy) (fuel : nat) :
  pages_served client 0 (before ++ [last_page]) →
  Forall (full_without name) before →
  len last_page < 1000 →
  Forall (λ q, Name q ≠ name) last_page →
  1000 * len before ≤ max_int64 →
  (length before < fuel)%nat →
  findPolicyByName fuel name client
  = (page_calls 0 (S (length before)), Fail (not_exist name)) ∧
  Error (not_exist name) = "policy '" +:+ name +:+ "' does not exist".
Proof.
  intros Hserved Hbefore Hshort Hlast Hmax Hfuel. split; [|reflexivity].
  unfold findPolicyByName.
  replace fuel with (length before + S (fuel - S (length before)))%nat by lia.
  change 0 with (1000 * Z.of_nat 0) at 1.
  rewrite (findPolicyByName_loop_skip client name before Hbefore 0%nat _
             (pages_served_app _ _ _ _ Hserved) Hmax).
  cbn [Nat.add findPolicyByName_loop].
  assert (ListPolicies client (listPoliciesRequest 1000 (1000 * Z.of_nat (length before)))
          = inr last_page) as Hpage.
  { apply (Hserved (length before)). by rewrite lookup_app_r, Nat.sub_diag. }
  rewrite (bind_invoke_ok _ _ _ _ Hpage), (find_name_absent name last_page Hlast).
  destruct (Z.ltb_spec (len last_page) 1000); [|lia].
  cbn [fst snd fail]. by rewrite page_calls_snoc.
Qed.

Lemma findPolicyByName_exhausted_two_pages :
  findPolicyByName 2 "test_policy" two_pages_without_client
  = (page_calls 0 2, Fail (not_exist "test_policy")) ∧
  Error (not_exist "test_policy") = "policy 'test_policy' does not exist".
Proof.
  apply (findPolicyByName_exhausted two_pages_without_client "test_policy" [first_page]
           [named_policy 9999999 "some_policy"] 2).
  - intros [|[|j]] pg Hj; simpl in Hj; inversion Hj; reflexivity.
  - constructor; [split|constructor].
    + vm_compute. discriminate.
    + apply Forall_replicate. simpl. discriminate.
  - reflexivity.
  - constructor; [simpl; discriminate | constructor].
  - vm_compute. discriminate.
  - simpl. lia.
Defined.

(** X3. An error of the API on any page is returned unchanged, right after the
    request that met it. *)
Theorem findPolicyByName_page_error (client : Cloudlets) (name : string)
    (before : list (list Policy)) (e : error) (fuel : nat) :
  pages_served client 0 before →
  Forall (full_without name) before →
  ListPolicies client (listPoliciesRequest 1000 (1000 * len before)) = inl e →
  1000 * len before ≤ max_int64 →
  (length before < fuel)%nat →
  findPolicyByName fuel name client = (page_calls 0 (S (length before)), Fail e).
Proof.
  intros Hserved Hbefore Herr Hmax Hfuel. unfold findPolicyByName.
  replace fuel with (length before + S (fuel - S (length before)))%nat by lia.
  change 0 with (1000 * Z.of_nat 0) at 1.
  rewrite (findPolicyByName_loop_skip client name before Hbefore 0%nat _ Hserved Hmax).
  cbn [Nat.add findPolicyByName_loop]. unfold len in Herr.
  rewrite (bind_invoke_err _ _ _ _ Herr).
  cbn [fst snd]. by rewrite page_calls_snoc.
Qed.

Lemma findPolicyByName_page_error_second :
  findPolicyByName 2 "test_policy" failing_second_page_client
  = (page_calls 0 2, Fail (Errorf "oops")).
Proof.
  apply (findPolicyByName_page_error failing_second_page_client "test_policy" [first_page]
           (Errorf "oops") 2).
  - intros [|j] pg Hj; simpl in Hj; inversion Hj; reflexivity.
  - constructor; [split|constructor].
    + vm_compute. discriminate.
    + apply Forall_replicate. simpl. discriminate.
  - reflexivity.
  - vm_compute. discriminate.
  - simpl. lia.
Defined.

(** The finder makes no call but [ListPolicies] with page size 1000. *)
Theorem findPolicyByName_only_lists (fuel : nat) (name : string) (client : Cloudlets) :
  Forall (λ c, ∃ offset, c = CallListPolicies (listPoliciesRequest 1000 offset))
         (findPolicyByName fuel name client).1.
Proof.
  unfold findPolicyByName. generalize 0.
  induction fuel as [|fuel IH]; intros offset; [constructor|].
  cbn [findPolicyByName_loop].
  destruct (ListPolicies client (listPoliciesRequest 1000 offset)) as [e|pg].
  - rewrite (bind_invoke_err _ _ e _ eq_refl). repeat constructor. by exists offset.
  - rewrite (bind_invoke_ok _ _ pg _ eq_refl). cbn [fst].
    constructor; [by exists offset|].
    destruct (find (name_is name) pg); [constructor|].
    destruct (len pg <? 1000); [constructor | apply IH].
Qed.

(** X4. Nothing but the server ends the search: against a server whose every page
    is full and without the name, the finder asks on and on, one request per
    unit of fuel. *)
Theorem findPolicyByName_endless (client : Cloudlets) (name : string) (fuel : nat) :
  (∀ req, ∃ pg, ListPolicies client req = inr pg ∧ full_without name pg) →
  (findPolicyByName fuel name client).2 = OutOfFuel ∧
  length (findPolicyByName fuel name client).1 = fuel.
Proof.
  intros Hfull. unfold findPolicyByName. generalize 0.
  induction fuel as [|fuel IH]; intros offset; [by split|].
  cbn [findPolicyByName_loop].
  destruct (Hfull (listPoliciesRequest 1000 offset)) as (pg & Hpg & Hlen & Hname).
  rewrite (bind_invoke_ok _ _ _ _ Hpg), (find_name_absent name pg Hname).
  destruct (Z.ltb_spec (len pg) 1000); [lia|].
  cbn [fst snd length]. destruct (IH (wrap_int64 (offset + 1000))) as [-> ->]. by split.
Qed.

Lemma findPolicyByName_endless_five :
  (findPolicyByName 5 "test_policy" endless_client).2 = OutOfFuel ∧
  length (findPolicyByName 5 "test_policy" endless_client).1 = 5%nat.
Proof.
  apply (findPolicyByName_endless endless_client "test_policy" 5).
  intros req. exists first_page. split; [reflexivity|]. split.
  - vm_compute. discriminate.
  - apply Forall_replicate. simpl. discriminate.
Defined.

(** ** The version resolver page by page *)

Lemma version_pages_served_app (client : Cloudlets) (policyID : Z) (i : nat)
    (before after : list (list PolicyVersion)) :
  version_pages_served client policyID i (before ++ after) →
  version_pages_served client policyID i before.
Proof.
  intros Hserved j pg Hj. apply Hserved. by apply lookup_app_l_Some.
Qed.

Lemma version_calls_snoc (policyID : Z) (i k : nat) :
  version_calls policyID i (S k)
  = version_calls policyID i k
      ++ [CallListPolicyVersions
            (listPolicyVersionsRequest policyID 1000 (1000 * Z.of_nat (i + k)))].
Proof. unfold version_calls. rewrite seq_S, fmap_app. reflexivity. Qed.

(** Full pages are read one after the other, the maximum running along. *)
Lemma getLatestPolicyVersion_loop_skip (client : Cloudlets) (policyID : Z)
    (before : list (list PolicyVersion)) :
  Forall (λ pg, 1000 ≤ len pg) before →
  ∀ (i fuel : nat) (version : Z),
    version_pages_served client policyID i before →
    1000 * Z.of_nat (i + length before) ≤ max_int64 →
    getLatestPolicyVersion_loop (length before + fuel) policyID client version 1000
      (1000 * Z.of_nat i)
    = (version_calls policyID i (length before)
         ++ (getLatestPolicyVersion_loop fuel policyID client
               (max_version version (concat before)) 1000
               (1000 * Z.of_nat (i + length before))).1,
       (getLatestPolicyVersion_loop fuel policyID client
          (max_version version (concat before)) 1000
          (1000 * Z.of_nat (i + length before))).2).
Proof.
  induction 1 as [|pg before Hlen _ IH]; intros i fuel version Hserved Hmax.
  - cbn [length Nat.add version_calls seq fmap list_fmap app concat]. rewrite Nat.add_0_r.
    by destruct (getLatestPolicyVersion_loop _ _ _ _ _ _).
  - cbn [length Nat.add]. cbn [length] in Hmax. cbn [getLatestPolicyVersion_loop].
    pose proof (Hserved 0%nat _ eq_refl) as H0. rewrite Nat.add_0_r in H0.
    rewrite (bind_invoke_ok _ _ _ _ H0).
    destruct (Z.eqb_spec (len pg) 0); [lia|].
    destruct (Z.ltb_spec (len pg) 1000); [lia|].
    rewrite wrap_int64_small by (unfold max_int64 in *; lia).
    replace (1000 * Z.of_nat i + 1000) with (1000 * Z.of_nat (S i)) by lia.
    rewrite (IH (S i) fuel).
    + replace (S i + length before)%nat with (i + S (length before))%nat by lia.
      cbn [concat]. rewrite max_version_app. reflexivity.
    + intros j q Hq. replace (S i + j)%nat with (i + S j)%nat by lia.
      apply Hserved. exact Hq.
    + replace (S i + length before)%nat with (i + S (length before))%nat by lia.
      exact Hmax.
Qed.

(** X6. The version the resolver asks for, when the listing ends with a short
    page that is not empty: it is at least 0 and at least every version
    listed on any page, and it is 0 or one of the versions listed. *)
Theorem getLatestPolicyVersion_requests_maximum (client : Cloudlets) (policyID : Z)
    (before : list (list PolicyVersion)) (last_page : list PolicyVersion) (fuel : nat) :
  version_pages_served client policyID 0 (before ++ [last_page]) →
  Forall (λ pg, 1000 ≤ len pg) before →
  0 < len last_page < 1000 →
  1000 * len before ≤ max_int64 →
  (length before < fuel)%nat →
  ∃ latest : Z,
    (getLatestPolicyVersion fuel policyID client).1
    = version_calls policyID 0 (S (length before))
        ++ [CallGetPolicyVersion {| GPV_PolicyID := policyID; GPV_Version := latest |}] ∧
    0 ≤ latest ∧
    (∀ v, v ∈ concat (before ++ [last_page]) → PV_Version v ≤ latest) ∧
    (latest = 0 ∨ ∃ v, v ∈ concat (before ++ [last_page]) ∧ PV_Version v = latest).
Proof.
  intros Hserved Hbefore Hlast Hmax Hfuel.
  exists (max_version 0 (concat (before ++ [last_page]))).
  split; [|split; [|split]].
  - unfold getLatestPolicyVersion.
    pose proof (getLatestPolicyVersion_loop_all_pages client policyID last_page before
                  Hlast Hbefore 0%nat fuel 0 Hserved Hmax Hfuel) as Hloop.
    change (1000 * Z.of_nat 0) with 0 in Hloop. rewrite Hloop. reflexivity.
  - apply max_version_ge.
  - intros v Hv. by apply max_version_upper.
  - apply max_version_attained.
Qed.

Lemma getLatestPolicyVersion_requests_maximum_two_pages :
  ∃ latest : Z,
    (getLatestPolicyVersion 2 123 two_version_pages_client).1
    = version_calls 123 0 2
        ++ [CallGetPolicyVersion {| GPV_PolicyID := 123; GPV_Version := latest |}] ∧
    0 ≤ latest ∧
    (∀ v, v ∈ concat ([versions_page 1000 501] ++ [versions_page 500 1])
          → PV_Version v ≤ latest) ∧
    (latest = 0 ∨ ∃ v, v ∈ concat ([versions_page 1000 501] ++ [versions_page 500 1])
                       ∧ PV_Version v = latest).
Proof.
  apply (getLatestPolicyVersion_requests_maximum two_version_pages_client 123
           [versions_page 1000 501] (versions_page 500 1) 2).
  - intros [|[|j]] pg Hj; simpl in Hj; inversion Hj; reflexivity.
  - constructor; [vm_compute; discriminate | constructor].
  - split; vm_compute; reflexivity.
  - vm_compute. discriminate.
  - simpl. lia.
Defined.

(** X7. An error of the API on any page of versions is returned unchanged, and
    no version is asked for. *)
Theorem getLatestPolicyVersion_error_on_page (client : Cloudlets) (policyID : Z)
    (before : list (list PolicyVersion)) (e : error) (fuel : nat) :
  version_pages_served client policyID 0 before →
  Forall (λ pg, 1000 ≤ len pg) before →
  ListPolicyVersions client (listPolicyVersionsRequest policyID 1000 (1000 * len before))
    = inl e →
  1000 * len before ≤ max_int64 →
  (length before < fuel)%nat →
  getLatestPolicyVersion fuel policyID client
  = (version_calls policyID 0 (S (length before)), Fail e).
Proof.
  intros Hserved Hbefore Herr Hmax Hfuel. unfold getLatestPolicyVersion.
  replace fuel with (length before + S (fuel - S (length before)))%nat by lia.
  change 0 with (1000 * Z.of_nat 0) at 2.
  rewrite (getLatestPolicyVersion_loop_skip client policyID before Hbefore 0%nat _ 0
             Hserved Hmax).
  cbn [Nat.add getLatestPolicyVersion_loop]. unfold len in Herr.
  rewrite (bind_invoke_err _ _ _ _ Herr).
  cbn [fst snd]. rewrite version_calls_snoc. reflexivity.
Qed.

Lemma getLatestPolicyVersion_error_on_second_page :
  getLatestPolicyVersion 2 123 failing_second_page_client
  = (version_calls 123 0 2, Fail (Errorf "oops")).
Proof.
  apply (getLatestPolicyVersion_error_on_page failing_second_page_client 123
           [versions_page 1000 1] (Errorf "oops") 2).
  - intros [|j] pg Hj; simpl in Hj; inversion Hj; reflexivity.
  - constructor; [vm_compute; discriminate | constructor].
  - reflexivity.
  - vm_compute. discriminate.
  - simpl. lia.
Defined.

(** X8. An empty page, the first or one that follows full pages, ends the
    resolver with the error "no policy versions found for given policy", and
    no version is asked for. *)
Theorem getLatestPolicyVersion_empty_page (client : Cloudlets) (policyID : Z)
    (before : list (list PolicyVersion)) (fuel : nat) :
  version_pages_served client policyID 0 (before ++ [[]]) →
  Forall (λ pg, 1000 ≤ len pg) before →
  1000 * len before ≤ max_int64 →
  (length before < fuel)%nat →
  getLatestPolicyVersion fuel policyID client
  = (version_calls policyID 0 (S (length before)), Fail no_versions) ∧
  Error no_versions = "no policy versions found for given policy".
Proof.
  intros Hserved Hbefore Hmax Hfuel. split; [|reflexivity].
  unfold getLatestPolicyVersion.
  replace fuel with (length before + S (fuel - S (length before)))%nat by lia.
  change 0 with (1000 * Z.of_nat 0) at 2.
  rewrite (getLatestPolicyVersion_loop_skip client policyID before Hbefore 0%nat _ 0
             (version_pages_served_app _ _ _ _ _ Hserved) Hmax).
  cbn [Nat.add getLatestPolicyVersion_loop].
  assert (ListPolicyVersions client
            (listPolicyVersionsRequest policyID 1000 (1000 * Z.of_nat (length before)))
          = inr []) as Hpage.
  { apply (Hserved (length before)). by rewrite lookup_app_r, Nat.sub_diag. }
  rewrite (bind_invoke_ok _ _ _ _ Hpage).
  cbn [fst snd]. rewrite version_calls_snoc. reflexivity.
Qed.

Lemma getLatestPolicyVersion_empty_first_page :
  getLatestPolicyVersion 1 123 empty_client
  = (version_calls 123 0 1, Fail no_versions) ∧
  Error no_versions = "no policy versions found for given policy".
Proof.
  apply (getLatestPolicyVersion_empty_page empty_client 123 [] 1).
  - intros [|j] pg Hj; simpl in Hj; inversion Hj; reflexivity.
  - constructor.
  - vm_compute. discriminate.
  - simpl. lia.
Defined.

Lemma getLatestPolicyVersion_loop_calls (policyID : Z) (client : Cloudlets) (fuel : nat) :
  ∀ version offset,
    Forall (λ c, ∃ o, c = CallListPolicyVersions (listPolicyVersionsRequest policyID 1000 o))
           (getLatestPolicyVersion_loop fuel policyID client version 1000 offset).1 ∧
    ∀ v, (getLatestPolicyVersion_loop fuel policyID client version 1000 offset).2 = Ret v →
         version ≤ v.
Proof.
  induction fuel as [|fuel IH]; intros version offset; [split; [constructor | discriminate]|].
  cbn [getLatestPolicyVersion_loop].
  destruct (ListPolicyVersions client (listPolicyVersionsRequest policyID 1000 offset))
    as [e|versions].
  - rewrite (bind_invoke_err _ _ e _ eq_refl).
    split; [repeat constructor; by exists offset | discriminate].
  - rewrite (bind_invoke_ok _ _ versions _ eq_refl). cbn [fst snd].
    destruct (len versions =? 0).
    { split; [repeat constructor; by exists offset | discriminate]. }
    destruct (len versions <? 1000).
    { split; [repeat constructor; by exists offset|].
      intros v Hv. injection Hv as <-. apply max_version_ge. }
    destruct (IH (max_version version versions) (wrap_int64 (offset + 1000))) as [Hcalls Hret].
    split; [constructor; [by exists offset | exact Hcalls]|].
    intros v Hv. etransitivity; [apply max_version_ge | by apply Hret].
Qed.

(** X9. Whatever the API answers, the resolver lists versions of the given policy
    without their rules, 1000 a page, and then asks for at most one version,
    never a negative one, last of all. *)
Theorem getLatestPolicyVersion_calls (fuel : nat) (policyID : Z) (client : Cloudlets) :
  ∃ listing detail : list Call,
    (getLatestPolicyVersion fuel policyID client).1 = listing ++ detail ∧
    Forall (λ c, ∃ o, c = CallListPolicyVersions
                          {| LPV_PolicyID := policyID; LPV_IncludeRules := false;
                             LPV_PageSize := Some 1000; LPV_Offset := o |}) listing ∧
    (detail = [] ∨
     ∃ v, 0 ≤ v ∧ detail = [CallGetPolicyVersion {| GPV_PolicyID := policyID;
                                                     GPV_Version := v |}]).
Proof.
  unfold getLatestPolicyVersion.
  destruct (getLatestPolicyVersion_loop_calls policyID client fuel 0 0) as [Hcalls Hret].
  destruct (getLatestPolicyVersion_loop fuel policyID client 0 1000 0) as [calls [v|e|]] eqn:Hloop.
  - exists calls, [CallGetPolicyVersion {| GPV_PolicyID := policyID; GPV_Version := v |}].
    split; [reflexivity|]. split; [exact Hcalls|]. right. exists v.
    split; [by apply Hret | reflexivity].
  - exists calls, []. split; [by rewrite app_nil_r|]. split; [exact Hcalls | by left].
  - exists calls, []. split; [by rewrite app_nil_r|]. split; [exact Hcalls | by left].
Qed.

(** ** The origin IDs of the rules *)

Lemma collectOriginIDs_alb (albs : list MatchRuleALB) :
  ∀ acc : gset string,
  ∃ keys : gset string,
    collectOriginIDs (RuleALB <$> albs) acc = inr keys ∧
    ∀ x, x ∈ keys ↔ x ∈ acc ∨ (x ≠ EmptyString ∧
                                 ∃ a, a ∈ albs ∧ OriginID (ForwardSettings a) = x).
Proof.
  induction albs as [|a albs IH]; intros acc.
  - exists acc. split; [reflexivity|]. intros x. split; [by left|].
    intros [Hx|(_ & b & Hb & _)]; [exact Hx | inversion Hb].
  - cbn [fmap list_fmap collectOriginIDs].
    destruct (decide (OriginID (ForwardSettings a) = EmptyString)) as [Hempty|Hfull].
    + rewrite bool_decide_eq_false_2 by (intros Hn; exact (Hn Hempty)).
      destruct (IH acc) as (keys & Hkeys & Hiff). exists keys. split; [exact Hkeys|].
      intros x. rewrite Hiff. split.
      * intros [Hx|(Hne & b & Hb & Hbx)]; [by left|].
        right. split; [exact Hne|]. exists b. split; [by apply elem_of_cons; right | exact Hbx].
      * intros [Hx|(Hne & b & Hb & Hbx)]; [by left|].
        apply elem_of_cons in Hb as [->|Hb]; [congruence|].
        right. split; [exact Hne|]. by exists b.
    + rewrite bool_decide_eq_true_2 by exact Hfull.
      destruct (IH ({[OriginID (ForwardSettings a)]} ∪ acc)) as (keys & Hkeys & Hiff).
      exists keys. split; [exact Hkeys|].
      intros x. rewrite Hiff, elem_of_union, elem_of_singleton. split.
      * intros [[->|Hx]|(Hne & b & Hb & Hbx)].
        -- right. split; [exact Hfull|]. exists a. split; [by apply elem_of_cons; left | reflexivity].
        -- by left.
        -- right. split; [exact Hne|]. exists b.
           split; [by apply elem_of_cons; right | exact Hbx].
      * intros [Hx|(Hne & b & Hb & Hbx)]; [left; by right|].
        apply elem_of_cons in Hb as [->|Hb]; [left; left; by symmetry|].
        right. split; [exact Hne|]. by exists b.
Qed.

(** X12. For rules that are all ALB rules, [getOriginIDs] gives each origin ID that
    some rule forwards to exactly once, and leaves out the empty one. *)
Theorem getOriginIDs_distinct_nonempty (order : MapRange) (albs : list MatchRuleALB) :
  range_ok order →
  ∃ originIDs : list string,
    getOriginIDs order (RuleALB <$> albs) = inr originIDs ∧
    NoDup originIDs ∧
    ∀ x, x ∈ originIDs
         ↔ x ≠ EmptyString ∧ ∃ a, a ∈ albs ∧ OriginID (ForwardSettings a) = x.
Proof.
  intros Hok. unfold getOriginIDs.
  destruct (collectOriginIDs_alb albs ∅) as (keys & -> & Hiff).
  exists (order keys). split; [reflexivity|]. split.
  - rewrite (Hok keys). apply NoDup_elements.
  - intros x. rewrite (Hok keys), elem_of_elements, Hiff. split.
    + intros [Hx|H]; [by apply not_elem_of_empty in Hx | exact H].
    + intros H. by right.
Qed.

Lemma getOriginIDs_distinct_nonempty_three :
  ∃ originIDs : list string,
    getOriginIDs forwards
      (RuleALB <$> [{| ALB_Name := "r1"; ALB_ID := 1; ForwardSettings := {| OriginID := "origin_a" |} |};
                    {| ALB_Name := "r2"; ALB_ID := 2; ForwardSettings := {| OriginID := EmptyString |} |};
                    {| ALB_Name := "r3"; ALB_ID := 3; ForwardSettings := {| OriginID := "origin_a" |} |}])
    = inr originIDs ∧
    NoDup originIDs ∧
    ∀ x, x ∈ originIDs
         ↔ x ≠ EmptyString ∧
           ∃ a, a ∈ [{| ALB_Name := "r1"; ALB_ID := 1; ForwardSettings := {| OriginID := "origin_a" |} |};
                     {| ALB_Name := "r2"; ALB_ID := 2; ForwardSettings := {| OriginID := EmptyString |} |};
                     {| ALB_Name := "r3"; ALB_ID := 3; ForwardSettings := {| OriginID := "origin_a" |} |}]
                ∧ OriginID (ForwardSettings a) = x.
Proof.
  apply (getOriginIDs_distinct_nonempty forwards). intros keys. reflexivity.
Defined.

(** X13. The first rule that is not an ALB rule makes [getOriginIDs] fail with an
    error that names its type, whatever rules follow. *)
Theorem getOriginIDs_not_alb (order : MapRange) (albs : list MatchRuleALB) (typeName : string)
    (rest : list MatchRule) :
  getOriginIDs order ((RuleALB <$> albs) ++ RuleOther typeName :: rest)
    = inl (not_alb typeName) ∧
  Error (not_alb typeName) = "match rule type is not a MatchRuleALB: " +:+ typeName.
Proof.
  split; [|reflexivity]. unfold getOriginIDs.
  assert (∀ acc, collectOriginIDs ((RuleALB <$> albs) ++ RuleOther typeName :: rest) acc
                 = inl (not_alb typeName)) as ->; [|reflexivity].
  induction albs as [|a albs IH]; intros acc; [reflexivity|].
  cbn [fmap list_fmap app collectOriginIDs].
  destruct (bool_decide _); apply IH.
Qed.

(** ** The latest load balancer versions *)

Lemma latest_step_fold (versions : list LoadBalancerVersion) :
  ∀ st : Z * LoadBalancerVersion,
    let st' := fold_left latest_step versions st in
    st.1 ≤ st'.1 ∧
    (∀ v, v ∈ versions → LBV_Version v ≤ st'.1) ∧
    (st' = st ∨ (st'.2 ∈ versions ∧ LBV_Version st'.2 = st'.1 ∧ st.1 < st'.1)).
Proof.
  induction versions as [|w versions IH]; intros st; cbn zeta.
  - cbn [fold_left]. split; [lia|]. split; [intros v Hv; inversion Hv | by left].
  - cbn [fold_left]. destruct (IH (latest_step st w)) as (Hge & Hupper & Hatt).
    assert (st.1 ≤ (latest_step st w).1 ∧ LBV_Version w ≤ (latest_step st w).1) as [H1 H2].
    { unfold latest_step. destruct (Z.gtb_spec (LBV_Version w) st.1); cbn [fst]; lia. }
    split; [lia|]. split.
    + intros v Hv. apply elem_of_cons in Hv as [->|Hv]; [lia | by apply Hupper].
    + destruct Hatt as [Heq|(Hin & Hver & Hlt)].
      * rewrite Heq. unfold latest_step.
        destruct (Z.gtb_spec (LBV_Version w) st.1) as [Hgt|Hle]; [|by left].
        right. cbn [fst snd]. split; [by apply elem_of_cons; left|]. split; [reflexivity | lia].
      * right. split; [by apply elem_of_cons; right|]. split; [exact Hver | lia].
Qed.

(** X15. The load balancer kept for an origin is one of its listed versions, its
    version is positive and no listed version is higher; none is kept exactly
    when no listed version is positive. *)
Theorem latestLoadBalancer_highest (versions : list LoadBalancerVersion) :
  match latestLoadBalancer versions with
  | Some lb => lb ∈ versions ∧ 0 < LBV_Version lb
               ∧ ∀ v, v ∈ versions → LBV_Version v ≤ LBV_Version lb
  | None => ∀ v, v ∈ versions → LBV_Version v ≤ 0
  end.
Proof.
  unfold latestLoadBalancer.
  destruct (latest_step_fold versions (0, zeroLoadBalancerVersion)) as (Hge & Hupper & Hatt).
  cbn zeta in *. cbn [fst] in Hge.
  destruct (Z.gtb_spec (fold_left latest_step versions (0, zeroLoadBalancerVersion)).1 0)
    as [Hpos|Hnonpos].
  - destruct Hatt as [Heq|(Hin & Hver & _)].
    + rewrite Heq in Hpos. cbn [fst] in Hpos. lia.
    + split; [exact Hin|]. split; [lia|]. intros v Hv. rewrite Hver. by apply Hupper.
  - intros v Hv. specialize (Hupper v Hv). lia.
Qed.

Lemma getLoadBalancers_loop_listed (client : Cloudlets)
    (versionsOf : string → list LoadBalancerVersion) (originIDs : list string) :
  (∀ o, o ∈ originIDs → ListLoadBalancerVersions client o = inr (versionsOf o)) →
  ∀ loadBalancers,
    getLoadBalancers_loop client originIDs loadBalancers
    = (CallListLoadBalancerVersions <$> originIDs,
       Ret (loadBalancers ++ omap (λ o, latestLoadBalancer (versionsOf o)) originIDs)).
Proof.
  induction originIDs as [|o originIDs IH]; intros Hlisted loadBalancers.
  - cbn. by rewrite app_nil_r.
  - cbn [getLoadBalancers_loop].
    rewrite (bind_invoke_ok _ _ _ _ (Hlisted o (list_elem_of_here _ _))).
    cbn [omap list_omap fmap list_fmap]. unfold latestLoadBalancer.
    destruct (_ >? 0); rewrite IH by (intros o' Ho'; apply Hlisted; by apply elem_of_cons; right);
      cbn [fst snd]; [by rewrite <- app_assoc | reflexivity].
Qed.

(** X16. When the API lists the versions of every origin, [getLoadBalancers] asks
    once per origin, in the order given, and returns in that order the load
    balancer kept for each origin that has one. *)
Theorem getLoadBalancers_listed (client : Cloudlets)
    (versionsOf : string → list LoadBalancerVersion) (originIDs : list string) :
  (∀ o, o ∈ originIDs → ListLoadBalancerVersions client o = inr (versionsOf o)) →
  getLoadBalancers client originIDs
  = (CallListLoadBalancerVersions <$> originIDs,
     Ret (omap (λ o, latestLoadBalancer (versionsOf o)) originIDs)).
Proof.
  intros Hlisted. unfold getLoadBalancers.
  by rewrite (getLoadBalancers_loop_listed client versionsOf originIDs Hlisted []).
Qed.

Lemma getLoadBalancers_listed_two :
  getLoadBalancers alb_client ["origin_b"; "origin_a"]
  = (CallListLoadBalancerVersions <$> ["origin_b"; "origin_a"],
     Ret (omap (λ o, latestLoadBalancer [lb_version o 1; lb_version o 2])
               ["origin_b"; "origin_a"])).
Proof.
  apply (getLoadBalancers_listed alb_client (λ o, [lb_version o 1; lb_version o 2])
           ["origin_b"; "origin_a"]).
  intros o _. reflexivity.
Defined.

(** X17. The first origin whose versions the API fails to list ends
    [getLoadBalancers] with that error; the origins after it are not asked for. *)
Theorem getLoadBalancers_error (client : Cloudlets)
    (versionsOf : string → list LoadBalancerVersion) (listed : list string) (failing : string)
    (rest : list string) (e : error) :
  (∀ o, o ∈ listed → ListLoadBalancerVersions client o = inr (versionsOf o)) →
  ListLoadBalancerVersions client failing = inl e →
  getLoadBalancers client (listed ++ failing :: rest)
  = (CallListLoadBalancerVersions <$> (listed ++ [failing]), Fail e).
Proof.
  intros Hlisted Hfail. unfold getLoadBalancers. generalize (@nil LoadBalancerVersion).
  induction listed as [|o listed IH]; intros loadBalancers.
  - cbn [app getLoadBalancers_loop]. rewrite (bind_invoke_err _ _ _ _ Hfail). reflexivity.
  - cbn [app getLoadBalancers_loop].
    rewrite (bind_invoke_ok _ _ _ _ (Hlisted o (list_elem_of_here _ _))).
    assert (∀ o', o' ∈ listed → ListLoadBalancerVersions client o' = inr (versionsOf o'))
      as Hlisted' by (intros o' Ho'; apply Hlisted; by apply elem_of_cons; right).
    destruct (_ >? 0); rewrite (IH Hlisted'); reflexivity.
Qed.

Lemma getLoadBalancers_error_origin_b :
  getLoadBalancers lb_failing_client (["origin_a"] ++ "origin_b" :: ["origin_c"])
  = (CallListLoadBalancerVersions <$> (["origin_a"] ++ ["origin_b"]), Fail (Errorf "oops")).
Proof.
  apply (getLoadBalancers_error lb_failing_client (λ o, [lb_version o 1; lb_version o 2])
           ["origin_a"] "origin_b" ["origin_c"] (Errorf "oops")).
  - intros o Ho. apply list_elem_of_singleton in Ho as ->. reflexivity.
  - reflexivity.
Defined.

(** ** The activation of a load balancer on a network *)

Lemma getApplicationLoadBalancerActivation_run (client : Cloudlets)
    (originID network : string) (activations : list LoadBalancerActivation) :
  ListLoadBalancerActivations client originID = inr activations →
  getApplicationLoadBalancerActivation client originID network
  = ([CallListLoadBalancerActivations originID],
     Ret (head (sort_Slice (filter (λ act, LBA_Network act = network) activations)
                  (λ i j, string_gt (date_at activations i) (date_at activations j))))).
Proof.
  intros Hlist. unfold getApplicationLoadBalancerActivation.
  rewrite (bind_invoke_ok _ _ _ _ Hlist). reflexivity.
Qed.

Lemma getApplicationLoadBalancerActivation_listed (client : Cloudlets)
    (originID network : string) (activations : list LoadBalancerActivation) :
  ListLoadBalancerActivations client originID = inr activations →
  at_most_on_a_network 12 activations →
  getApplicationLoadBalancerActivation client originID network
  = ([CallListLoadBalancerActivations originID], Ret (chosenActivation activations network)).
Proof.
  intros Hlist Hshort.
  rewrite (getApplicationLoadBalancerActivation_run _ _ _ _ Hlist).
  unfold chosenActivation. by rewrite sort_Slice_insertion by apply Hshort.
Qed.

Lemma sorted_head_on_network (activations : list LoadBalancerActivation)
    (network : string) :
  match head (sort_Slice (filter (λ act, LBA_Network act = network) activations)
                (λ i j, string_gt (date_at activations i) (date_at activations j))) with
  | Some act => act ∈ activations ∧ LBA_Network act = network
  | None => Forall (λ act, LBA_Network act ≠ network) activations
  end.
Proof.
  pose proof (sort_Slice_permutation
                (filter (λ act, LBA_Network act = network) activations)
                (λ i j, string_gt (date_at activations i) (date_at activations j))) as Hperm.
  destruct (sort_Slice _ _) as [|act sorted]; cbn [head].
  - apply Permutation_nil_l in Hperm. apply Forall_forall. intros act Hact Hnet.
    assert (act ∈ filter (λ act, LBA_Network act = network) activations) as Hin
      by (apply list_elem_of_filter; by split).
    rewrite <- Hperm in Hin. inversion Hin.
  - assert (act ∈ filter (λ act, LBA_Network act = network) activations) as Hin
      by (rewrite <- Hperm; apply list_elem_of_here).
    apply list_elem_of_filter in Hin as [Hnet Hin]. by split.
Qed.

(** X18. Whatever the order of the listing, the activation returned is one of the
    listed activations and is on the requested network; [nil] is returned,
    without error, exactly when no listed activation is on that network.
    One request is made. *)
Theorem getApplicationLoadBalancerActivation_on_network (client : Cloudlets)
    (originID network : string) (activations : list LoadBalancerActivation) :
  ListLoadBalancerActivations client originID = inr activations →
  ∃ result : option LoadBalancerActivation,
    getApplicationLoadBalancerActivation client originID network
    = ([CallListLoadBalancerActivations originID], Ret result) ∧
    match result with
    | Some act => act ∈ activations ∧ LBA_Network act = network
    | None => Forall (λ act, LBA_Network act ≠ network) activations
    end.
Proof.
  intros Hlist. eexists.
  split; [by apply getApplicationLoadBalancerActivation_run|].
  apply sorted_head_on_network.
Qed.

Lemma getApplicationLoadBalancerActivation_on_staging :
  ∃ result : option LoadBalancerActivation,
    getApplicationLoadBalancerActivation activations_client "test_origin" "STAGING"
    = ([CallListLoadBalancerActivations "test_origin"], Ret result) ∧
    match result with
    | Some act => act ∈ listed_activations ∧ LBA_Network act = "STAGING"
    | None => Forall (λ act, LBA_Network act ≠ "STAGING") listed_activations
    end.
Proof.
  apply (getApplicationLoadBalancerActivation_on_network activations_client
           "test_origin" "STAGING" listed_activations).
  reflexivity.
Defined.

(** ** The activations of all load balancers *)

Lemma getLoadBalancerActivations_loop_listed (client : Cloudlets)
    (listOf : string → list LoadBalancerActivation) (originIDs : list string) :
  (∀ o, o ∈ originIDs → ListLoadBalancerActivations client o = inr (listOf o)) →
  (∀ o, o ∈ originIDs → at_most_on_a_network 12 (listOf o)) →
  ∀ activations,
    getLoadBalancerActivations_loop client originIDs activations
    = (concat ((λ o, [CallListLoadBalancerActivations o; CallListLoadBalancerActivations o])
                 <$> originIDs),
       Ret (activations ++ concat ((λ o, originActivations (listOf o)) <$> originIDs))).
Proof.
  induction originIDs as [|o originIDs IH]; intros Hlisted Hshort activations.
  - cbn. by rewrite app_nil_r.
  - cbn [getLoadBalancerActivations_loop].
    pose proof (Hlisted o (list_elem_of_here _ _)) as Ho.
    pose proof (Hshort o (list_elem_of_here _ _)) as Hs.
    rewrite (bind_ret_run _ _ _
               (f_equal snd (getApplicationLoadBalancerActivation_listed client o
                               LoadBalancerActivationNetworkProduction _ Ho Hs))).
    rewrite (bind_ret_run _ _ _
               (f_equal snd (getApplicationLoadBalancerActivation_listed client o
                               LoadBalancerActivationNetworkStaging _ Ho Hs))).
    rewrite !(getApplicationLoadBalancerActivation_listed client o _ _ Ho Hs).
    rewrite IH; [| intros o' Ho'; apply Hlisted; by apply elem_of_cons; right
                 | intros o' Ho'; apply Hshort; by apply elem_of_cons; right].
    cbn [fst snd fmap list_fmap concat app]. unfold originActivations.
    destruct (chosenActivation (listOf o) LoadBalancerActivationNetworkProduction),
             (chosenActivation (listOf o) LoadBalancerActivationNetworkStaging);
      cbn [option_list app]; by rewrite <- ?app_assoc.
Qed.

(** X19. When the API lists the activations of every origin, at most 12 of
    them on any one network (the slices on which [sort.Slice] is the insertion
    sort), [getLoadBalancerActivations] asks twice per origin, in the order
    given, and returns for each origin the production activation kept, if
    any, followed by the staging activation kept, if any. *)
Theorem getLoadBalancerActivations_listed (client : Cloudlets)
    (listOf : string → list LoadBalancerActivation) (originIDs : list string) :
  (∀ o, o ∈ originIDs → ListLoadBalancerActivations client o = inr (listOf o)) →
  (∀ o, o ∈ originIDs → at_most_on_a_network 12 (listOf o)) →
  getLoadBalancerActivations client originIDs
  = (concat ((λ o, [CallListLoadBalancerActivations o; CallListLoadBalancerActivations o])
               <$> originIDs),
     Ret (concat ((λ o, originActivations (listOf o)) <$> originIDs))) ∧
  (length (concat ((λ o, originActivations (listOf o)) <$> originIDs))
   ≤ 2 * length originIDs)%nat.
Proof.
  intros Hlisted Hshort. split.
  - unfold getLoadBalancerActivations.
    by rewrite (getLoadBalancerActivations_loop_listed client listOf originIDs
                  Hlisted Hshort []).
  - clear Hlisted Hshort. induction originIDs as [|o originIDs IH]; [cbn; lia|].
    rewrite fmap_cons. cbn [concat length]. rewrite length_app.
    assert (length (originActivations (listOf o)) ≤ 2)%nat as Hone.
    { unfold originActivations.
      destruct (chosenActivation (listOf o) LoadBalancerActivationNetworkProduction),
               (chosenActivation (listOf o) LoadBalancerActivationNetworkStaging);
        cbn; lia. }
    lia.
Qed.

Lemma getLoadBalancerActivations_listed_two :
  getLoadBalancerActivations activations_client ["origin_a"; "origin_b"]
  = (concat ((λ o, [CallListLoadBalancerActivations o; CallListLoadBalancerActivations o])
               <$> ["origin_a"; "origin_b"]),
     Ret (concat ((λ _, originActivations listed_activations) <$> ["origin_a"; "origin_b"]))) ∧
  (length (concat ((λ _ : string, originActivations listed_activations)
                     <$> ["origin_a"; "origin_b"]))
   ≤ 2 * length ["origin_a"; "origin_b"])%nat.
Proof.
  apply (getLoadBalancerActivations_listed activations_client (λ _, listed_activations)
           ["origin_a"; "origin_b"]).
  - intros o _. reflexivity.
  - intros o _ network. etransitivity; [apply length_filter|]. simpl. lia.
Defined.

(** Thirteen activations on a network are beyond the insertion sort: the
    library first partitions the slice around the median of the places 3, 6
    and 9, and the activation returned is the one of version 7, where the
    insertion sort would leave the one of version 1 in front. *)
Example getApplicationLoadBalancerActivation_thirteen :
  getApplicationLoadBalancerActivation thirteen_client "test_origin"
    LoadBalancerActivationNetworkProduction
  = ([CallListLoadBalancerActivations "test_origin"], Ret (Some (production_on "09" 7))) ∧
  chosenActivation thirteen_activations LoadBalancerActivationNetworkProduction
  = Some (production_on "07" 1).
Proof. by vm_compute. Qed.

(** X20. The first origin whose activations the API fails to list ends
    [getLoadBalancerActivations] with that error at its first request for
    that origin. *)
Theorem getLoadBalancerActivations_error (client : Cloudlets)
    (listOf : string → list LoadBalancerActivation) (listed : list string) (failing : string)
    (rest : list string) (e : error) :
  (∀ o, o ∈ listed → ListLoadBalancerActivations client o = inr (listOf o)) →
  ListLoadBalancerActivations client failing = inl e →
  getLoadBalancerActivations client (listed ++ failing :: rest)
  = (concat ((λ o, [CallListLoadBalancerActivations o; CallListLoadBalancerActivations o])
               <$> listed)
       ++ [CallListLoadBalancerActivations failing],
     Fail e).
Proof.
  intros Hlisted Hfail. unfold getLoadBalancerActivations.
  generalize (@nil LoadBalancerActivation).
  induction listed as [|o listed IH]; intros activations.
  - cbn [app getLoadBalancerActivations_loop fmap list_fmap concat].
    rewrite (bind_fail_run _ e); [|by rewrite (getApplicationLoadBalancerActivation_error _ _ _ _ Hfail)].
    by rewrite (getApplicationLoadBalancerActivation_error _ _ _ _ Hfail).
  - cbn [app getLoadBalancerActivations_loop].
    pose proof (Hlisted o (list_elem_of_here _ _)) as Ho.
    rewrite (bind_ret_run _ _ _
               (f_equal snd (getApplicationLoadBalancerActivation_run client o
                               LoadBalancerActivationNetworkProduction _ Ho))).
    rewrite (bind_ret_run _ _ _
               (f_equal snd (getApplicationLoadBalancerActivation_run client o
                               LoadBalancerActivationNetworkStaging _ Ho))).
    rewrite !(getApplicationLoadBalancerActivation_run client o _ _ Ho).
    rewrite IH by (intros o' Ho'; apply Hlisted; by apply elem_of_cons; right).
    reflexivity.
Qed.

Lemma getLoadBalancerActivations_error_origin_b :
  getLoadBalancerActivations lb_failing_client (["origin_a"] ++ "origin_b" :: ["origin_c"])
  = (concat ((λ o, [CallListLoadBalancerActivations o; CallListLoadBalancerActivations o])
               <$> ["origin_a"])
       ++ [CallListLoadBalancerActivations "origin_b"],
     Fail (Errorf "oops")).
Proof.
  apply (getLoadBalancerActivations_error lb_failing_client (λ _, []) ["origin_a"] "origin_b"
           ["origin_c"] (Errorf "oops")).
  - intros o Ho. apply list_elem_of_singleton in Ho as ->. reflexivity.
  - reflexivity.
Defined.

(** ** How an export fails, and what a successful one hands over *)

Lemma wrapping_fail {A : Type} (s : sentinel) (m : M A) (e : error) :
  m.2 = Fail e → wrapping s m = (m.1, Fail (Wrapf (Named s) (Error e))).
Proof. unfold wrapping. intros ->. reflexivity. Qed.

Lemma findPolicyByName_name (fuel : nat) (name : string) (client : Cloudlets) (p : Policy) :
  (findPolicyByName fuel name client).2 = Ret p → Name p = name.
Proof.
  unfold findPolicyByName. generalize 0. generalize 1000.
  induction fuel as [|fuel IH]; intros pageSize offset; [discriminate|].
  cbn [findPolicyByName_loop].
  destruct (ListPolicies client (listPoliciesRequest pageSize offset)) as [e|pg].
  - rewrite (bind_invoke_err _ _ e _ eq_refl). discriminate.
  - rewrite (bind_invoke_ok _ _ pg _ eq_refl). cbn [fst snd].
    destruct (find (name_is name) pg) as [q|] eqn:Hfind.
    + intros Hret. injection Hret as ->.
      apply find_some in Hfind as [_ Hname]. by apply bool_decide_eq_true in Hname.
    + destruct (len pg <? pageSize); [discriminate | apply IH].
Qed.

(** X21. When the policy cannot be found, because the API failed or because no
    policy bears the name, [createPolicy] stops after the finder's requests
    with an error that wraps [ErrFetchingPolicy] and quotes the finder's
    error text; the template processor is not called. *)
Theorem createPolicy_policy_not_fetched (order : MapRange) (fuel : nat)
    (policyName section : string) (client : Cloudlets) (templateProcessor : TemplateProcessor)
    (e : error) :
  (findPolicyByName fuel policyName client).2 = Fail e →
  ∃ err : error,
    createPolicy order fuel policyName section client templateProcessor
    = ((findPolicyByName fuel policyName client).1, Fail err) ∧
    processed (findPolicyByName fuel policyName client).1 = [] ∧
    errors_Is err (Named ErrFetchingPolicy) = true ∧
    Error err = "unable to fetch policy with given name: " +:+ Error e.
Proof.
  intros Hfind. exists (Wrapf (Named ErrFetchingPolicy) (Error e)).
  split; [|split; [apply findPolicyByName_processed | split; reflexivity]].
  unfold createPolicy. rewrite (wrapping_fail _ _ _ Hfind).
  by rewrite (bind_fail_run _ (Wrapf (Named ErrFetchingPolicy) (Error e))).
Qed.

Lemma createPolicy_policy_not_fetched_oops :
  ∃ err : error,
    createPolicy forwards 2 "test_policy" "test_section" failing_second_page_client accepting
    = ((findPolicyByName 2 "test_policy" failing_second_page_client).1, Fail err) ∧
    processed (findPolicyByName 2 "test_policy" failing_second_page_client).1 = [] ∧
    errors_Is err (Named ErrFetchingPolicy) = true ∧
    Error err = "unable to fetch policy with given name: " +:+ Error (Errorf "oops").
Proof.
  apply (createPolicy_policy_not_fetched forwards 2 "test_policy" "test_section"
           failing_second_page_client accepting (Errorf "oops")).
  vm_compute. reflexivity.
Defined.

(** X22. When the latest version of a supported policy cannot be fetched,
    [createPolicy] stops after the resolver's requests with an error that
    wraps [ErrFetchingVersion] and quotes the resolver's error text; the
    template processor is not called. *)
Theorem createPolicy_version_not_fetched (order : MapRange) (fuel : nat)
    (policyName section : string) (client : Cloudlets) (templateProcessor : TemplateProcessor)
    (policy : Policy) (e : error) :
  (findPolicyByName fuel policyName client).2 = Ret policy →
  CloudletCode policy ∈ supportedCloudlets →
  (getLatestPolicyVersion fuel (PolicyID policy) client).2 = Fail e →
  ∃ err : error,
    createPolicy order fuel policyName section client templateProcessor
    = ((findPolicyByName fuel policyName client).1
         ++ (getLatestPolicyVersion fuel (PolicyID policy) client).1,
       Fail err) ∧
    processed (createPolicy order fuel policyName section client templateProcessor).1 = [] ∧
    errors_Is err (Named ErrFetchingVersion) = true ∧
    Error err = "unable to fetch latest policy version: " +:+ Error e.
Proof.
  intros Hfind Hcode Hversion. exists (Wrapf (Named ErrFetchingVersion) (Error e)).
  assert (createPolicy order fuel policyName section client templateProcessor
          = ((findPolicyByName fuel policyName client).1
               ++ (getLatestPolicyVersion fuel (PolicyID policy) client).1,
             Fail (Wrapf (Named ErrFetchingVersion) (Error e)))) as Hrun.
  { unfold createPolicy.
    rewrite (wrapping_ret _ _ _ Hfind), (bind_ret_run _ _ _ Hfind).
    rewrite bool_decide_eq_false_2 by (intros Hn; exact (Hn Hcode)).
    rewrite (wrapping_fail _ _ _ Hversion).
    by rewrite (bind_fail_run _ (Wrapf (Named ErrFetchingVersion) (Error e))). }
  split; [exact Hrun|]. split; [|split; reflexivity].
  rewrite Hrun. cbn [fst].
  by rewrite processed_app, findPolicyByName_processed, getLatestPolicyVersion_processed.
Qed.

Lemma createPolicy_version_not_fetched_oops :
  ∃ err : error,
    createPolicy forwards 1 "test_policy" "test_section" versions_failing_client accepting
    = ((findPolicyByName 1 "test_policy" versions_failing_client).1
         ++ (getLatestPolicyVersion 1 (PolicyID staging_only_policy) versions_failing_client).1,
       Fail err) ∧
    processed (createPolicy forwards 1 "test_policy" "test_section"
                 versions_failing_client accepting).1 = [] ∧
    errors_Is err (Named ErrFetchingVersion) = true ∧
    Error err = "unable to fetch latest policy version: " +:+ Error (Errorf "oops").
Proof.
  apply (createPolicy_version_not_fetched forwards 1 "test_policy" "test_section"
           versions_failing_client accepting staging_only_policy (Errorf "oops")).
  - reflexivity.
  - apply supportedCloudlets_elem, list_elem_of_In. simpl. tauto.
  - reflexivity.
Defined.

(** X23. A policy of a cloudlet other than ALB is exported without a request about
    load balancers.  The template processor is called once, last; the data
    it receives carry name, cloudlet code and group of the policy found,
    description, rule format and rules of its latest version, the section
    given and no load balancer; its answer is the result, an error of its
    own unwrapped. *)
Theorem createPolicy_hands_over (order : MapRange) (fuel : nat)
    (policyName section : string) (client : Cloudlets) (templateProcessor : TemplateProcessor)
    (policy : Policy) (policyVersion : PolicyVersion) :
  (findPolicyByName fuel policyName client).2 = Ret policy →
  CloudletCode policy ∈ supportedCloudlets →
  CloudletCode policy ≠ "ALB" →
  (getLatestPolicyVersion fuel (PolicyID policy) client).2 = Ret policyVersion →
  ∃ data : TFPolicyData,
    createPolicy order fuel policyName section client templateProcessor
    = ((findPolicyByName fuel policyName client).1
         ++ (getLatestPolicyVersion fuel (PolicyID policy) client).1
         ++ [CallProcessTemplates data],
       yield (templateProcessor data)) ∧
    processed (createPolicy order fuel policyName section client templateProcessor).1
    = [data] ∧
    TF_Name data = policyName ∧
    TF_CloudletCode data = CloudletCode policy ∧
    TF_GroupID data = GroupID policy ∧
    TF_Description data = PV_Description policyVersion ∧
    TF_MatchRuleFormat data = PV_MatchRuleFormat policyVersion ∧
    TF_MatchRules data = PV_MatchRules policyVersion ∧
    TF_Section data = section ∧
    TF_LoadBalancers data = [] ∧
    TF_LoadBalancerActivations data = [].
Proof.
  intros Hfind Hcode Hnot Hversion.
  assert (loadBalancerData order client (CloudletCode policy) (PV_MatchRules policyVersion)
          = ([], Ret ([], []))) as Hlb.
  { unfold loadBalancerData. by rewrite bool_decide_eq_false_2. }
  pose proof (createPolicy_fetched order fuel policyName section client templateProcessor
                policy policyVersion ([], []) Hfind Hcode Hversion
                (f_equal snd Hlb)) as Hrun.
  cbn zeta in Hrun. rewrite Hlb in Hrun. cbn [fst snd app] in Hrun.
  eexists. split; [exact Hrun|]. rewrite Hrun. cbn [fst].
  split.
  { rewrite !processed_app, findPolicyByName_processed, getLatestPolicyVersion_processed.
    reflexivity. }
  cbn. split; [|by repeat split].
  exact (findPolicyByName_name fuel policyName client policy Hfind).
Qed.

Lemma createPolicy_hands_over_scenario :
  ∃ data : TFPolicyData,
    createPolicy forwards 2 "test_policy_export" "test_section"
      (single_policy_client scenario_policy) accepting
    = ((findPolicyByName 2 "test_policy_export" (single_policy_client scenario_policy)).1
         ++ (getLatestPolicyVersion 2 (PolicyID scenario_policy)
               (single_policy_client scenario_policy)).1
         ++ [CallProcessTemplates data],
       yield (accepting data)) ∧
    processed (createPolicy forwards 2 "test_policy_export" "test_section"
                 (single_policy_client scenario_policy) accepting).1
    = [data] ∧
    TF_Name data = "test_policy_export" ∧
    TF_CloudletCode data = CloudletCode scenario_policy ∧
    TF_GroupID data = GroupID scenario_policy ∧
    TF_Description data = PV_Description (exported_version 2 2) ∧
    TF_MatchRuleFormat data = PV_MatchRuleFormat (exported_version 2 2) ∧
    TF_MatchRules data = PV_MatchRules (exported_version 2 2) ∧
    TF_Section data = "test_section" ∧
    TF_LoadBalancers data = [] ∧
    TF_LoadBalancerActivations data = [].
Proof.
  apply (createPolicy_hands_over forwards 2 "test_policy_export" "test_section"
           (single_policy_client scenario_policy) accepting scenario_policy
           (exported_version 2 2)).
  - reflexivity.
  - apply supportedCloudlets_elem, list_elem_of_In. simpl. tauto.
  - discriminate.
  - reflexivity.
Defined.

(** X24. For an ALB policy whose rules are all ALB rules, and with the API listing
    versions and activations of every origin, at most 12 activations on any
    one network (the slices on which [sort.Slice] is the insertion sort), the
    data handed to the template processor hold, in the order in which
    [getOriginIDs] gave the origins, the load balancer kept for each origin
    and the activations kept for each origin; the requests about versions
    come before those about activations. *)
Theorem createPolicy_load_balancers (order : MapRange) (fuel : nat)
    (policyName section : string) (client : Cloudlets) (templateProcessor : TemplateProcessor)
    (policy : Policy) (policyVersion : PolicyVersion) (originIDs : list string)
    (versionsOf : string → list LoadBalancerVersion)
    (listOf : string → list LoadBalancerActivation) :
  (findPolicyByName fuel policyName client).2 = Ret policy →
  CloudletCode policy = "ALB" →
  (getLatestPolicyVersion fuel (PolicyID policy) client).2 = Ret policyVersion →
  getOriginIDs order (PV_MatchRules policyVersion) = inr originIDs →
  (∀ o, o ∈ originIDs → ListLoadBalancerVersions client o = inr (versionsOf o)) →
  (∀ o, o ∈ originIDs → ListLoadBalancerActivations client o = inr (listOf o)) →
  (∀ o, o ∈ originIDs → at_most_on_a_network 12 (listOf o)) →
  ∃ data : TFPolicyData,
    createPolicy order fuel policyName section client templateProcessor
    = ((findPolicyByName fuel policyName client).1
         ++ (getLatestPolicyVersion fuel (PolicyID policy) client).1
         ++ ((CallListLoadBalancerVersions <$> originIDs)
               ++ concat ((λ o, [CallListLoadBalancerActivations o;
                                 CallListLoadBalancerActivations o]) <$> originIDs))
         ++ [CallProcessTemplates data],
       yield (templateProcessor data)) ∧
    TF_LoadBalancers data = omap (λ o, latestLoadBalancer (versionsOf o)) originIDs ∧
    TF_LoadBalancerActivations data
    = concat ((λ o, originActivations (listOf o)) <$> originIDs).
Proof.
  intros Hfind Hcode Hversion Horigins Hversions Hactivations Hshort.
  assert (loadBalancerData order client (CloudletCode policy) (PV_MatchRules policyVersion)
          = ((CallListLoadBalancerVersions <$> originIDs)
               ++ concat ((λ o, [CallListLoadBalancerActivations o;
                                 CallListLoadBalancerActivations o]) <$> originIDs),
             Ret (omap (λ o, latestLoadBalancer (versionsOf o)) originIDs,
                  concat ((λ o, originActivations (listOf o)) <$> originIDs)))) as Hlb.
  { unfold loadBalancerData. rewrite bool_decide_eq_true_2 by exact Hcode.
    rewrite Horigins.
    rewrite (wrapping_ret _ (lift_result (inr originIDs)) originIDs eq_refl).
    rewrite (bind_ret_run (lift_result (inr originIDs)) originIDs _ eq_refl).
    assert (getLoadBalancers client originIDs
            = (CallListLoadBalancerVersions <$> originIDs,
               Ret (omap (λ o, latestLoadBalancer (versionsOf o)) originIDs))) as HLB.
    { unfold getLoadBalancers.
      by rewrite (getLoadBalancers_loop_listed client versionsOf originIDs Hversions []). }
    assert (getLoadBalancerActivations client originIDs
            = (concat ((λ o, [CallListLoadBalancerActivations o;
                              CallListLoadBalancerActivations o]) <$> originIDs),
               Ret (concat ((λ o, originActivations (listOf o)) <$> originIDs)))) as HLBA.
    { unfold getLoadBalancerActivations.
      by rewrite (getLoadBalancerActivations_loop_listed client listOf originIDs
                    Hactivations Hshort []). }
    rewrite (wrapping_ret _ _ _ (f_equal snd HLB)), (bind_ret_run _ _ _ (f_equal snd HLB)).
    rewrite (wrapping_ret _ _ _ (f_equal snd HLBA)), (bind_ret_run _ _ _ (f_equal snd HLBA)).
    rewrite HLB, HLBA. cbn [lift_result fst snd app mret M_ret]. by rewrite app_nil_r. }
  assert (CloudletCode policy ∈ supportedCloudlets) as Hsupported.
  { rewrite Hcode. apply supportedCloudlets_elem, list_elem_of_In. simpl. tauto. }
  pose proof (createPolicy_fetched order fuel policyName section client templateProcessor
                policy policyVersion _ Hfind Hsupported Hversion (f_equal snd Hlb)) as Hrun.
  cbn zeta in Hrun. rewrite Hlb in Hrun. cbn [fst snd] in Hrun.
  eexists. split; [exact Hrun|]. by split.
Qed.

Lemma createPolicy_load_balancers_backwards :
  ∃ data : TFPolicyData,
    createPolicy backwards 2 "test_policy" "test_section" alb_activations_client accepting
    = ((findPolicyByName 2 "test_policy" alb_activations_client).1
         ++ (getLatestPolicyVersion 2 (PolicyID alb_policy) alb_activations_client).1
         ++ ((CallListLoadBalancerVersions <$> ["origin_b"; "origin_a"])
               ++ concat ((λ o, [CallListLoadBalancerActivations o;
                                 CallListLoadBalancerActivations o])
                            <$> ["origin_b"; "origin_a"]))
         ++ [CallProcessTemplates data],
       yield (accepting data)) ∧
    TF_LoadBalancers data
    = omap (λ o, latestLoadBalancer [lb_version o 1; lb_version o 2]) ["origin_b"; "origin_a"] ∧
    TF_LoadBalancerActivations data
    = concat ((λ _, originActivations listed_activations) <$> ["origin_b"; "origin_a"]).
Proof.
  apply (createPolicy_load_balancers backwards 2 "test_policy" "test_section"
           alb_activations_client accepting alb_policy alb_version ["origin_b"; "origin_a"]
           (λ o, [lb_version o 1; lb_version o 2]) (λ _, listed_activations)).
  - reflexivity.
  - reflexivity.
  - reflexivity.
  - vm_compute. reflexivity.
  - intros o _. reflexivity.
  - intros o _. reflexivity.
  - intros o _ network. etransitivity; [apply length_filter|]. simpl. lia.
Defined.

(** X25. An ALB policy whose latest version holds a rule that is not an ALB rule
    is not exported: [createPolicy] stops before any request about load
    balancers with an error that wraps [ErrFetchingVersion] and names the
    type of the rule; the template processor is not called. *)
Theorem createPolicy_rule_not_alb (order : MapRange) (fuel : nat)
    (policyName section : string) (client : Cloudlets) (templateProcessor : TemplateProcessor)
    (policy : Policy) (policyVersion : PolicyVersion) (albs : list MatchRuleALB)
    (typeName : string) (rest : list MatchRule) :
  (findPolicyByName fuel policyName client).2 = Ret policy →
  CloudletCode policy = "ALB" →
  (getLatestPolicyVersion fuel (PolicyID policy) client).2 = Ret policyVersion →
  PV_MatchRules policyVersion = (RuleALB <$> albs) ++ RuleOther typeName :: rest →
  ∃ err : error,
    createPolicy order fuel policyName section client templateProcessor
    = ((findPolicyByName fuel policyName client).1
         ++ (getLatestPolicyVersion fuel (PolicyID policy) client).1,
       Fail err) ∧
    processed (createPolicy order fuel policyName section client templateProcessor).1 = [] ∧
    errors_Is err (Named ErrFetchingVersion) = true ∧
    Error err = "unable to fetch latest policy version: match rule type is not a MatchRuleALB: "
                +:+ typeName.
Proof.
  intros Hfind Hcode Hversion Hrules.
  exists (Wrapf (Named ErrFetchingVersion) (Error (not_alb typeName))).
  assert (getOriginIDs order (PV_MatchRules policyVersion) = inl (not_alb typeName)) as Horigins.
  { rewrite Hrules. unfold getOriginIDs.
    assert (∀ acc, collectOriginIDs ((RuleALB <$> albs) ++ RuleOther typeName :: rest) acc
                   = inl (not_alb typeName)) as ->; [|reflexivity].
    clear. induction albs as [|a albs IH]; intros acc; [reflexivity|].
    cbn [fmap list_fmap app collectOriginIDs]. destruct (bool_decide _); apply IH. }
  assert (CloudletCode policy ∈ supportedCloudlets) as Hsupported.
  { rewrite Hcode. apply supportedCloudlets_elem, list_elem_of_In. simpl. tauto. }
  assert (createPolicy order fuel policyName section client templateProcessor
          = ((findPolicyByName fuel policyName client).1
               ++ (getLatestPolicyVersion fuel (PolicyID policy) client).1,
             Fail (Wrapf (Named ErrFetchingVersion) (Error (not_alb typeName))))) as Hrun.
  { unfold createPolicy.
    rewrite (wrapping_ret _ _ _ Hfind), (bind_ret_run _ _ _ Hfind).
    rewrite bool_decide_eq_false_2 by (intros Hn; exact (Hn Hsupported)).
    rewrite (wrapping_ret _ _ _ Hversion), (bind_ret_run _ _ _ Hversion).
    unfold loadBalancerData. rewrite bool_decide_eq_true_2 by exact Hcode.
    rewrite Horigins. cbn. by rewrite !app_nil_r. }
  split; [exact Hrun|]. split; [|split; reflexivity].
  rewrite Hrun. cbn [fst].
  by rewrite processed_app, findPolicyByName_processed, getLatestPolicyVersion_processed.
Qed.

Lemma createPolicy_rule_not_alb_mixed :
  ∃ err : error,
    createPolicy forwards 2 "test_policy" "test_section" mixed_rules_client accepting
    = ((findPolicyByName 2 "test_policy" mixed_rules_client).1
         ++ (getLatestPolicyVersion 2 (PolicyID alb_policy) mixed_rules_client).1,
       Fail err) ∧
    processed (createPolicy forwards 2 "test_policy" "test_section"
                 mixed_rules_client accepting).1 = [] ∧
    errors_Is err (Named ErrFetchingVersion) = true ∧
    Error err = "unable to fetch latest policy version: match rule type is not a MatchRuleALB: "
                +:+ "*cloudlets.MatchRuleER".
Proof.
  apply (createPolicy_rule_not_alb forwards 2 "test_policy" "test_section" mixed_rules_client
           accepting alb_policy
           {| PV_PolicyID := 2; PV_Version := 2;
              PV_Description := "version 2 description"; PV_MatchRuleFormat := "1.0";
              PV_MatchRules := [alb_rule "origin_a"; RuleOther "*cloudlets.MatchRuleER"] |}
           [{| ALB_Name := "some rule"; ALB_ID := 1234;
               ForwardSettings := {| OriginID := "origin_a" |} |}]
           "*cloudlets.MatchRuleER" []).
  - reflexivity.
  - reflexivity.
  - reflexivity.
  - reflexivity.
Defined.

(** ** The Terraform state is read once *)

Lemma checkForResource_some (readTfState : ReadTfState) (rtype name tfWorkPath : string)
    (st : TFState) :
  ∃ b : bool,
    checkForResource readTfState rtype name tfWorkPath (Some st) = (Returned b, Some st) ∧
    (b = true ↔ has_resource rtype name st).
Proof.
  eexists. split; [reflexivity|]. apply existsb_resource.
Qed.

(** With a state already held in [tfState], the state file is not read: the
    answer tells whether that state has a resource of the type and name, and
    the state stays as it is, whatever reading would have given. *)
Theorem checkForResource_cached (readTfState : ReadTfState) (rtype name tfWorkPath : string)
    (st : TFState) :
  ∃ b : bool,
    (∀ other : ReadTfState,
       checkForResource other rtype name tfWorkPath (Some st) = (Returned b, Some st)) ∧
    checkForResource readTfState rtype name tfWorkPath (Some st) = (Returned b, Some st) ∧
    (b = true ↔ has_resource rtype name st).
Proof.
  destruct (checkForResource_some readTfState rtype name tfWorkPath st) as (b & Hrun & Hb).
  exists b. split; [|by split]. intros other. exact Hrun.
Qed.

(** X26. Once a call has read the state, every later call is answered from that
    state: for any type, name and work path, and whatever has become of the
    state file since. *)
Theorem checkForResource_reads_once (readTfState : ReadTfState)
    (rtype name tfWorkPath : string) (st : TFState) :
  readTfState tfWorkPath = (None, Some st) →
  (checkForResource readTfState rtype name tfWorkPath None).2 = Some st ∧
  ∀ (later : ReadTfState) (rtype' name' tfWorkPath' : string),
  ∃ b : bool,
    checkForResource later rtype' name' tfWorkPath'
      (checkForResource readTfState rtype name tfWorkPath None).2
    = (Returned b, Some st) ∧
    (b = true ↔ has_resource rtype' name' st).
Proof.
  intros Hread.
  assert ((checkForResource readTfState rtype name tfWorkPath None).2 = Some st) as Hkept.
  { unfold checkForResource. rewrite Hread. reflexivity. }
  split; [exact Hkept|]. intros later rtype' name' tfWorkPath'. rewrite Hkept.
  apply checkForResource_some.
Qed.

Lemma checkForResource_reads_once_zone :
  (checkForResource readable "akamai_dns_zone" "example_com" "./" None).2 = Some zone_state ∧
  ∀ (later : ReadTfState) (rtype' name' tfWorkPath' : string),
  ∃ b : bool,
    checkForResource later rtype' name' tfWorkPath'
      (checkForResource readable "akamai_dns_zone" "example_com" "./" None).2
    = (Returned b, Some zone_state) ∧
    (b = true ↔ has_resource rtype' name' zone_state).
Proof.
  apply (checkForResource_reads_once readable "akamai_dns_zone" "example_com" "./" zone_state).
  reflexivity.
Defined.

(** X27. [checkForResource] dereferences [tfState] unguarded: it panics exactly
    when no state is held and reading reports no error yet leaves none. *)
Theorem checkForResource_panics_iff (readTfState : ReadTfState)
    (rtype name tfWorkPath : string) (tfState : option TFState) :
  (checkForResource readTfState rtype name tfWorkPath tfState).1 = Panicked
  ↔ tfState = None ∧ readTfState tfWorkPath = (None, None).
Proof.
  unfold checkForResource. destruct tfState as [st|]; cbn [fst snd].
  - split; [discriminate | intros [? _]; discriminate].
  - destruct (readTfState tfWorkPath) as [[err|] [st|]]; cbn [fst snd];
      (split; [try discriminate; by intros _ | try (intros [_ ?]; discriminate); by intros _]).
Qed.

(** ** Rendering a template of the [dns] package *)

Lemma trimLeftNewlines_prefix (res : string) :
  ∃ n : nat, res = newlines n +:+ trimLeftNewlines res.
Proof.
  induction res as [|c rest [n IH]]; [by exists 0%nat|].
  cbn [trimLeftNewlines]. destruct (Ascii.eqb_spec c "010") as [->|Hc].
  - exists (S n). change (newlines (S n) +:+ trimLeftNewlines rest)
      with (String "010" (newlines n +:+ trimLeftNewlines rest)).
    by rewrite <- IH.
  - by exists 0%nat.
Qed.

Lemma trimLeftNewlines_head (res : string) (rest : string) :
  trimLeftNewlines res ≠ String "010" rest.
Proof.
  induction res as [|c res IH]; [discriminate|].
  cbn [trimLeftNewlines]. destruct (Ascii.eqb_spec c "010") as [->|Hc]; [exact IH|].
  intros Heq. injection Heq as Hc' _. contradiction.
Qed.

(** X28. [useTemplate] panics when the template set does not hold the name
    (or the execution panics), and swallows an execution error into the empty
    string.  Otherwise it returns the output as it is, or, asked to trim, the
    output without its leading line feeds: nothing else is removed, and what
    is returned does not begin with a line feed. *)
Theorem useTemplate_output (tmpl : TemplateSet) (templateName : string) :
  match tmpl_Lookup tmpl templateName with
  | None | Some Panicked =>
      ∀ trimBeginning, useTemplate tmpl templateName trimBeginning = Panicked
  | Some (Returned (inl _)) =>
      ∀ trimBeginning, useTemplate tmpl templateName trimBeginning = Returned EmptyString
  | Some (Returned (inr res)) =>
      useTemplate tmpl templateName false = Returned res ∧
      ∃ trimmed : string,
        useTemplate tmpl templateName true = Returned trimmed ∧
        (∃ n : nat, res = newlines n +:+ trimmed) ∧
        ∀ rest, trimmed ≠ String "010" rest
  end.
Proof.
  unfold useTemplate.
  destruct (tmpl_Lookup tmpl templateName) as [[[e|res]|]|]; cbn [Execute]; try done.
  split; [reflexivity|]. exists (trimLeftNewlines res).
  split; [reflexivity|]. split; [apply trimLeftNewlines_prefix | apply trimLeftNewlines_head].
Qed.

Example useTemplate_unknown_name :
  useTemplate two_templates "recordset.tmpl" true = Panicked.
Proof. reflexivity. Qed.

Example useTemplate_trimmed :
  useTemplate two_templates "zone.tmpl" true = Returned "zone" ∧
  useTemplate two_templates "zone.tmpl" false
  = Returned (String "010" (String "010" "zone")) ∧
  useTemplate two_templates "broken.tmpl" false = Returned EmptyString.
Proof. by vm_compute. Qed.

(** Trimming twice is trimming once. *)
Lemma trimLeftNewlines_idempotent (res : string) :
  trimLeftNewlines (trimLeftNewlines res) = trimLeftNewlines res.
Proof.
  induction res as [|c res IH]; [reflexivity|].
  cbn [trimLeftNewlines]. destruct (Ascii.eqb_spec c "010") as [->|Hc]; [exact IH|].
  cbn [trimLeftNewlines]. by rewrite (proj2 (Ascii.eqb_neq c "010") Hc).
Qed.

(** ** Networks do not mix *)

(** X10. An activation entry on another network changes nothing in the record of
    a network, wherever it stands in the history. *)
Theorem getActiveVersionAndProperties_other_network (policy : Policy) (network : string)
    (earlier later : list PolicyActivation) (a : PolicyActivation) :
  Activation_Network a ≠ network →
  getActiveVersionAndProperties (with_activations policy (earlier ++ a :: later)) network
  = getActiveVersionAndProperties (with_activations policy (earlier ++ later)) network.
Proof.
  intros Hother. rewrite !getActiveVersionAndProperties_eq. unfold entries_on.
  cbn [with_activations Activations PolicyID].
  by rewrite !filter_app, filter_cons_False.
Qed.

Lemma getActiveVersionAndProperties_other_network_prod :
  getActiveVersionAndProperties
    (with_activations scenario_policy
       ([activation "staging" 2 "prp_0"] ++ activation "prod" 1 "prp_0"
          :: [activation "staging" 2 "prp_1"])) "staging"
  = getActiveVersionAndProperties
      (with_activations scenario_policy
         ([activation "staging" 2 "prp_0"] ++ [activation "staging" 2 "prp_1"])) "staging".
Proof.
  apply (getActiveVersionAndProperties_other_network scenario_policy "staging"
           [activation "staging" 2 "prp_0"] [activation "staging" 2 "prp_1"]
           (activation "prod" 1 "prp_0")).
  discriminate.
Defined.

(** X11. A further entry on the network, at the end of the history, sets the
    version of the record to its own, higher or not, and adds its property
    name after those already there, a name already listed included. *)
Theorem getActiveVersionAndProperties_append (policy : Policy)
    (history : list PolicyActivation) (a : PolicyActivation) :
  getActiveVersionAndProperties (with_activations policy (history ++ [a]))
    (Activation_Network a)
  = Some {| TFA_PolicyID := PolicyID policy;
            TFA_Version := entry_version a;
            TFA_Properties :=
              from_option TFA_Properties []
                (getActiveVersionAndProperties (with_activations policy history)
                   (Activation_Network a))
              ++ [entry_property a] |}.
Proof.
  rewrite !getActiveVersionAndProperties_eq. unfold entries_on.
  cbn [with_activations Activations PolicyID].
  rewrite filter_app, filter_cons_True, filter_nil by reflexivity.
  rewrite last_snoc, fmap_app.
  destruct (last (filter _ history)) as [b|] eqn:Hlast; [reflexivity|].
  apply last_None in Hlast. rewrite Hlast. reflexivity.
Qed.

Lemma getOriginIDs_permutation_alb :
  ["origin_a"; "origin_b"] ≡ₚ ["origin_b"; "origin_a"].
Proof.
  apply (getOriginIDs_permutation forwards backwards
           [alb_rule "origin_a"; alb_rule "origin_b"; alb_rule "origin_a"]).
  - intros keys. reflexivity.
  - intros keys. apply reverse_Permutation.
  - vm_compute. reflexivity.
  - vm_compute. reflexivity.
Defined.
